(** * The Odin (JSON) loader of cantools: [cantools/database/can/formats/odin.py]

    A shallow embedding of the loader and the properties of its
    specification.  The loader is dynamically typed Python working on the
    value tree returned by [json.loads]; the embedding keeps that: a JSON
    value is a [Py.value], every operation that Python may refuse returns a
    [Py.result], and the exceptions keep their Python class.

    The builtins follow Python 3: [None] is not ordered, [int] and [float]
    accept strings with underscores between digits.  A string is a Rocq
    [string], one [ascii] per character. *)

From Stdlib Require Import ZArith QArith List String Ascii Bool Lia.
From Stdlib Require Import Sorted Permutation.
From Stdlib Require Import Floats.SpecFloat.
Import ListNotations.

Local Open Scope string_scope.
Local Open Scope list_scope.
Local Open Scope Z_scope.

(* ===================================================================== *)
(** ** The Python values and builtins the loader uses *)
(* ===================================================================== *)

Module Py.

(** Python floats are IEEE binary64 numbers. *)
Definition float : Type := spec_float.
Definition prec : Z := 53.
Definition emax : Z := 1024.

(** What [json.loads] returns: [None], [bool], [int], [float], [str],
    [list], and [dict] with string keys in insertion order (a dict holds a
    key once; [json.loads] keeps the last value of a repeated key). *)
#[warnings="-register-all"]
Inductive value : Type :=
| VNone
| VBool (b : bool)
| VInt (z : Z)
| VFloat (f : float)
| VStr (s : string)
| VList (l : list value)
| VDict (d : list (string * value)).

(** Exception classes.  An exception raised by a builtin carries its class
    only; a [ValueError] raised by the loader carries its message.
    [JSONDecodeError] is what [json.loads] raises on malformed text. *)
Inductive exception : Type :=
| KeyError
| TypeError
| IndexError
| AttributeError
| OverflowError
| ValueError (msg : option string)
| JSONDecodeError.

Inductive result (A : Type) : Type :=
| Ok (a : A)
| Raise (e : exception).
Arguments Ok {A} a.
Arguments Raise {A} e.

Definition bind {A B : Type} (c : result A) (k : A -> result B) : result B :=
  match c with
  | Ok a => k a
  | Raise e => Raise e
  end.

Definition is_ok {A : Type} (c : result A) : bool :=
  match c with Ok _ => true | Raise _ => false end.

(** [for x in l: acc = f(acc, x)], stopping at the first exception. *)
Fixpoint foldM {A B : Type} (f : B -> A -> result B) (acc : B) (l : list A)
  : result B :=
  match l with
  | [] => Ok acc
  | x :: l' => bind (f acc x) (fun acc' => foldM f acc' l')
  end.

(** [[f(x) for x in l]], stopping at the first exception. *)
Fixpoint mapM {A B : Type} (f : A -> result B) (l : list A) : result (list B) :=
  match l with
  | [] => Ok []
  | x :: l' => bind (f x) (fun y => bind (mapM f l') (fun ys => Ok (y :: ys)))
  end.

(** *** Truth value: [if v:] *)
Definition truthy (v : value) : bool :=
  match v with
  | VNone => false
  | VBool b => b
  | VInt z => negb (z =? 0)
  | VFloat (S754_zero _) => false
  | VFloat _ => true
  | VStr s => negb (s =? "")%string
  | VList [] => false
  | VList _ => true
  | VDict [] => false
  | VDict _ => true
  end.

Definition is_None (v : value) : bool :=
  match v with VNone => true | _ => false end.

(** *** Numbers *)

Definition signed (s : bool) (m : Z) : Z := if s then - m else m.

(** The number a [bool], [int] or [float] stands for.  Python compares
    numbers of different types by their exact values. *)
Inductive numeric : Type :=
| Fin (q : Q)
| Inf (negative : bool)
| NaN.

Definition numeric_of_float (f : float) : numeric :=
  match f with
  | S754_zero _ => Fin 0
  | S754_finite s m e => Fin (inject_Z (signed s (Zpos m)) * Qpower 2 e)
  | S754_infinity s => Inf s
  | S754_nan => NaN
  end.

Definition numeric_of (v : value) : option numeric :=
  match v with
  | VBool b => Some (Fin (inject_Z (if b then 1 else 0)))
  | VInt z => Some (Fin (inject_Z z))
  | VFloat f => Some (numeric_of_float f)
  | _ => None
  end.

(** [v == s] for a string constant [s]: only an equal [str] is equal. *)
Definition eq_str (v : value) (s : string) : bool :=
  match v with VStr s' => (s' =? s)%string | _ => false end.

(** [v == True]: [True] is the int 1, so [1] and [1.0] are equal to it. *)
Definition eq_True (v : value) : bool :=
  match numeric_of v with
  | Some (Fin q) => Qeq_bool q 1
  | _ => false
  end.

(** *** [int(v)] *)

(** The whitespace that [int] and [float] strip from a string: tab to
    carriage return and the space, and of the characters above 127 the
    two that are spaces, NEL (133) and the no-break space (160), which the
    conversion first turns into spaces. *)
Definition is_space (c : ascii) : bool :=
  let n := N_of_ascii c in
  ((9 <=? n) && (n <=? 13) || (n =? 32) || (n =? 133) || (n =? 160))%N.

Definition is_digit (c : ascii) : bool :=
  let n := N_of_ascii c in ((48 <=? n) && (n <=? 57))%N.

Definition digit (c : ascii) : Z := Z.of_N (N_of_ascii c) - 48.

Fixpoint lstrip (l : list ascii) : list ascii :=
  match l with
  | c :: l' => if is_space c then lstrip l' else l
  | [] => []
  end.

Definition strip (s : string) : list ascii :=
  rev (lstrip (rev (lstrip (list_ascii_of_string s)))).

(** An optional sign: [(negative, rest)]. *)
Definition sign (l : list ascii) : bool * list ascii :=
  match l with
  | "+"%char :: l' => (false, l')
  | "-"%char :: l' => (true, l')
  | _ => (false, l)
  end.

(** The rest of a [digitpart ::= digit (["_"] digit)*] after its first
    digit: the number read so far, how many digits, and what follows. *)
Fixpoint digitpart_rest (acc : Z) (n : Z) (l : list ascii)
  : Z * Z * list ascii :=
  match l with
  | c :: l' =>
      if is_digit c then digitpart_rest (10 * acc + digit c) (n + 1) l'
      else
        match c, l' with
        | "_"%char, c' :: l'' =>
            if is_digit c'
            then digitpart_rest (10 * acc + digit c') (n + 1) l''
            else (acc, n, l)
        | _, _ => (acc, n, l)
        end
  | [] => (acc, n, [])
  end.

Definition digitpart (l : list ascii) : option (Z * Z * list ascii) :=
  match l with
  | c :: l' => if is_digit c then Some (digitpart_rest (digit c) 1 l') else None
  | [] => None
  end.

(** [int(s)] for a string, base 10: surrounding whitespace, a sign, digits
    with single underscores between them.  (The limit that recent
    interpreters put on the number of digits is left out.) *)
Definition int_of_string (s : string) : result Z :=
  let (neg, l) := sign (strip s) in
  match digitpart l with
  | Some (z, _, []) => Ok (signed neg z)
  | _ => Raise (ValueError None)
  end.

(** [int(f)] for a float truncates towards zero. *)
Definition int_of_float (f : float) : result Z :=
  match f with
  | S754_zero _ => Ok 0
  | S754_finite s m e =>
      Ok (signed s (if 0 <=? e then Zpos m * 2 ^ e else Zpos m / 2 ^ (- e)))
  | S754_infinity _ => Raise OverflowError
  | S754_nan => Raise (ValueError None)
  end.

Definition int (v : value) : result Z :=
  match v with
  | VInt z => Ok z
  | VBool b => Ok (if b then 1 else 0)
  | VFloat f => int_of_float f
  | VStr s => int_of_string s
  | VNone | VList _ | VDict _ => Raise TypeError
  end.

(** *** [float(v)] *)

(** The float nearest to [m * 10 ^ e10] ([0 <= m]), ties to even.  For a
    negative exponent the quotient is taken with 63 bits or more and a
    sticky bit, which rounds as the exact quotient does. *)
Definition float_of_decimal (neg : bool) (m e10 : Z) : float :=
  if m =? 0 then S754_zero neg
  else if 0 <=? e10 then binary_normalize prec emax (signed neg (m * 10 ^ e10)) 0 neg
  else
    let d := 10 ^ (- e10) in
    let s := Z.max 0 (Z.log2 d - Z.log2 m + 64) in
    let q := (m * 2 ^ s) / d in
    let r := (m * 2 ^ s) mod d in
    binary_normalize prec emax
      (signed neg (2 * q + (if r =? 0 then 0 else 1))) (- (s + 1)) neg.

Definition lower (c : ascii) : ascii :=
  let n := N_of_ascii c in
  if ((65 <=? n) && (n <=? 90))%N then ascii_of_N (n + 32) else c.

(** [number ::= [digitpart] "." digitpart | digitpart ["."]]: the digits as
    one integer, the number of digits after the point, and what follows. *)
Definition number (l : list ascii) : option (Z * Z * list ascii) :=
  match digitpart l with
  | Some (i, _, "."%char :: l') =>
      match digitpart l' with
      | Some (f, nf, l'') => Some (i * 10 ^ nf + f, nf, l'')
      | None => Some (i, 0, l')
      end
  | Some (i, _, l') => Some (i, 0, l')
  | None =>
      match l with
      | "."%char :: l' => digitpart l'
      | _ => None
      end
  end.

(** [exponent ::= ("e" | "E") [sign] digitpart], optional. *)
Definition exponent (l : list ascii) : option (Z * list ascii) :=
  match l with
  | c :: l' =>
      if (lower c =? "e")%char then
        let (neg, l1) := sign l' in
        match digitpart l1 with
        | Some (e, _, l2) => Some (signed neg e, l2)
        | None => None
        end
      else Some (0, l)
  | [] => Some (0, [])
  end.

(** [float(s)] for a string. *)
Definition float_of_string (s : string) : result float :=
  let (neg, l) := sign (strip s) in
  let word := string_of_list_ascii (map lower l) in
  if ((word =? "inf") || (word =? "infinity"))%string then Ok (S754_infinity neg)
  else if (word =? "nan")%string then Ok S754_nan
  else
    match number l with
    | Some (m, nf, l') =>
        match exponent l' with
        | Some (e, []) => Ok (float_of_decimal neg m (e - nf))
        | _ => Raise (ValueError None)
        end
    | None => Raise (ValueError None)
    end.

(** [float(z)] for an int: the nearest float, or [OverflowError]. *)
Definition float_of_Z (z : Z) : result float :=
  match binary_normalize prec emax z 0 false with
  | S754_infinity _ => Raise OverflowError
  | f => Ok f
  end.

Definition float_ (v : value) : result float :=
  match v with
  | VFloat f => Ok f
  | VInt z => float_of_Z z
  | VBool b => float_of_Z (if b then 1 else 0)
  | VStr s => float_of_string s
  | VNone | VList _ | VDict _ => Raise TypeError
  end.

(** *** Containers *)

Fixpoint lookup (key : string) (d : list (string * value)) : option value :=
  match d with
  | [] => None
  | (k, v) :: d' => if (k =? key)%string then Some v else lookup key d'
  end.

Fixpoint substringb (k s : string) : bool :=
  prefix k s ||
  match s with
  | String _ s' => substringb k s'
  | EmptyString => false
  end.

(** [key in element] for a string key: a key of a dict, a substring of a
    string, an element of a list; other JSON values are not containers. *)
Definition contains (element : value) (key : string) : result bool :=
  match element with
  | VDict d => Ok (match lookup key d with Some _ => true | None => false end)
  | VStr s => Ok (substringb key s)
  | VList l => Ok (existsb (fun v => eq_str v key) l)
  | VNone | VBool _ | VInt _ | VFloat _ => Raise TypeError
  end.

(** [element[key]] for a string key: only a dict is indexed by strings. *)
Definition getitem (element : value) (key : string) : result value :=
  match element with
  | VDict d =>
      match lookup key d with
      | Some v => Ok v
      | None => Raise KeyError
      end
  | _ => Raise TypeError
  end.

(** [element.items()]: only a dict has the method. *)
Definition items (element : value) : result (list (string * value)) :=
  match element with
  | VDict d => Ok d
  | _ => Raise AttributeError
  end.

(** [for x in v]: the elements of a list, the characters of a string, the
    keys of a dict. *)
Definition iter (v : value) : result (list value) :=
  match v with
  | VList l => Ok l
  | VStr s => Ok (map (fun c => VStr (String c EmptyString)) (list_ascii_of_string s))
  | VDict d => Ok (map (fun kv => VStr (fst kv)) d)
  | VNone | VBool _ | VInt _ | VFloat _ => Raise TypeError
  end.

Definition hashable (v : value) : bool :=
  match v with VList _ | VDict _ => false | _ => true end.

(** When two hashable values are the same dict key or set element:
    identical or equal.  Numbers are compared by value across [bool], [int]
    and [float]; [json.loads] returns one shared [nan] object, which is
    identical to itself. *)
Definition numeric_same (a b : numeric) : bool :=
  match a, b with
  | Fin p, Fin q => Qeq_bool p q
  | Inf s, Inf t => Bool.eqb s t
  | NaN, NaN => true
  | _, _ => false
  end.

Definition key_eqb (a b : value) : bool :=
  match a, b with
  | VNone, VNone => true
  | VStr s, VStr t => (s =? t)%string
  | _, _ =>
      match numeric_of a, numeric_of b with
      | Some x, Some y => numeric_same x y
      | _, _ => false
      end
  end.

(** A dict with arbitrary hashable keys, in insertion order.
    [d[k] = v]: a key already present keeps its place and gets the value. *)
Fixpoint dict_set {V : Type} (d : list (value * V)) (k : value) (v : V)
  : list (value * V) :=
  match d with
  | [] => [(k, v)]
  | (k', v') :: d' =>
      if key_eqb k' k then (k', v) :: d' else (k', v') :: dict_set d' k v
  end.

Definition setitem {V : Type} (d : list (value * V)) (k : value) (v : V)
  : result (list (value * V)) :=
  if hashable k then Ok (dict_set d k v) else Raise TypeError.

Fixpoint dict_get {V : Type} (d : list (value * V)) (k : value) : option V :=
  match d with
  | [] => None
  | (k', v') :: d' => if key_eqb k' k then Some v' else dict_get d' k
  end.

(** A set of hashable values.  Python leaves the iteration order of a set
    unspecified; the model lists the elements in the order they were first
    added, and no property below depends on that order. *)
Definition set_mem (x : value) (s : list value) : bool :=
  existsb (fun y => key_eqb y x) s.

Definition set_add (s : list value) (x : value) : result (list value) :=
  if hashable x then Ok (if set_mem x s then s else s ++ [x])
  else Raise TypeError.

(** [s.update(v)] *)
Definition set_update (s : list value) (v : value) : result (list value) :=
  bind (iter v) (foldM set_add s).

(** [a < b] on sort keys that are an int or [None]: [None] is not ordered. *)
Definition lt (a b : option Z) : result bool :=
  match a, b with
  | Some x, Some y => Ok (x <? y)
  | _, _ => Raise TypeError
  end.

(** [sorted(l, key=key)]: the keys are computed first, then the elements
    are ordered by [<] on the keys; the sort is stable.  An insertion sort
    from the right is stable, and like Python's sort it compares every
    element at least once when there are two or more. *)
Fixpoint insert {A : Type} (k : option Z) (x : A) (l : list (option Z * A))
  : result (list (option Z * A)) :=
  match l with
  | [] => Ok [(k, x)]
  | (k', y) :: l' =>
      bind (lt k' k) (fun b =>
        if b then bind (insert k x l') (fun r => Ok ((k', y) :: r))
        else Ok ((k, x) :: l))
  end.

Fixpoint sort_keyed {A : Type} (l : list (option Z * A))
  : result (list (option Z * A)) :=
  match l with
  | [] => Ok []
  | (k, x) :: l' => bind (sort_keyed l') (insert k x)
  end.

Definition sorted {A : Type} (l : list A) (key : A -> result (option Z))
  : result (list A) :=
  bind (mapM (fun x => bind (key x) (fun k => Ok (k, x))) l) (fun kl =>
  bind (sort_keyed kl) (fun r => Ok (map snd r))).

End Py.

Import Py.

Notation "x <- c ;; k" := (bind c (fun x => k))
  (at level 61, c at next level, right associativity).

(* ===================================================================== *)
(** ** The classes the loader instantiates *)
(* ===================================================================== *)

(** Modelled from the spec: the class [SignalDecimal] of
    [cantools/database/can/signal.py] is not part of the loader's file; the
    loader builds one and assigns its [scale] and [offset]. *)
Module SignalDecimal.
Record t : Type := mk {
  scale : float;
  offset : float
}.
End SignalDecimal.

(** Modelled from the spec: the class [Signal] of
    [cantools/database/can/signal.py] is not part of the loader's file.  Its
    fields are those of the SignalSpec of the data model; the constructor
    stores its arguments, and the multiplexing attributes the loader assigns
    afterwards start as [False] / [None]. *)
Module Signal.
Record t : Type := mk {
  name : string;
  start : option Z;
  length : Z;
  receivers : value;
  byte_order : string;
  is_signed : bool;
  scale : float;
  offset : float;
  minimum : option Z;
  maximum : option Z;
  unit : value;
  choices : option (list (value * string));
  comment : option string;
  is_float : bool;
  decimal : SignalDecimal.t;
  multiplexer_ids : option (list Z);
  is_multiplexed : bool;
  is_multiplexer : bool;
  multiplexer_signal : option string
}.

(** [signal.multiplexer_ids = ids] *)
Definition set_multiplexer_ids (s : t) (ids : list Z) : t :=
  mk (name s) (start s) (length s) (receivers s) (byte_order s) (is_signed s)
     (scale s) (offset s) (minimum s) (maximum s) (unit s) (choices s)
     (comment s) (is_float s) (decimal s)
     (Some ids) (is_multiplexed s) (is_multiplexer s) (multiplexer_signal s).

(** [signal.is_multiplexed = b] *)
Definition set_is_multiplexed (s : t) (b : bool) : t :=
  mk (name s) (start s) (length s) (receivers s) (byte_order s) (is_signed s)
     (scale s) (offset s) (minimum s) (maximum s) (unit s) (choices s)
     (comment s) (is_float s) (decimal s)
     (multiplexer_ids s) b (is_multiplexer s) (multiplexer_signal s).

(** [signal.is_multiplexer = b] *)
Definition set_is_multiplexer (s : t) (b : bool) : t :=
  mk (name s) (start s) (length s) (receivers s) (byte_order s) (is_signed s)
     (scale s) (offset s) (minimum s) (maximum s) (unit s) (choices s)
     (comment s) (is_float s) (decimal s)
     (multiplexer_ids s) (is_multiplexed s) b (multiplexer_signal s).

(** [signal.multiplexer_signal = m] *)
Definition set_multiplexer_signal (s : t) (m : string) : t :=
  mk (name s) (start s) (length s) (receivers s) (byte_order s) (is_signed s)
     (scale s) (offset s) (minimum s) (maximum s) (unit s) (choices s)
     (comment s) (is_float s) (decimal s)
     (multiplexer_ids s) (is_multiplexed s) (is_multiplexer s) (Some m).
End Signal.

(** Modelled from the spec: the class [Message] of
    [cantools/database/can/message.py] is not part of the loader's file.  Its
    fields are those of the MessageSpec of the data model; the constructor
    stores its arguments. *)
Module Message.
Record t : Type := mk {
  frame_id : Z;
  is_extended_frame : bool;
  name : string;
  length : Z;
  senders : value;
  send_type : value;
  cycle_time : option Z;
  signals : list Signal.t;
  comment : option string;
  bus_name : value;
  strict : bool
}.
End Message.

(** Modelled from the spec: the class [Node] of
    [cantools/database/can/node.py]: a name and a comment. *)
Module Node.
Record t : Type := mk {
  name : value;
  comment : option string
}.
End Node.

(** Modelled from the spec: the class [InternalDatabase] of
    [cantools/database/can/internal_database.py]: the messages, the nodes,
    the buses and the version. *)
Module InternalDatabase.
Record t : Type := mk {
  messages : list Message.t;
  nodes : list Node.t;
  buses : list value;
  version : string
}.
End InternalDatabase.

(** Modelled from the spec: the helper [start_bit] of [cantools/database/utils.py],
    imported by the loader and used as its sort key, is not part of the
    loader's file.  The spec calls what it returns for a signal the
    signal's canonical start bit, which is what the loader stored in the
    signal's [start]. *)
Definition start_bit (data : Signal.t) : result (option Z) :=
  Ok (Signal.start data).

(* ===================================================================== *)
(** ** The loader *)
(* ===================================================================== *)

Definition _get_value (element : value) (key : string) (default : value)
  : result value :=
  b <- contains element key ;;
  if b then getitem element key else Ok default.

Definition _start_bit (offset : option Z) (byte_order : string)
  : result (option Z) :=
  if (byte_order =? "big_endian")%string then
    match offset with
    | Some o => Ok (Some (8 * (o / 8) + (7 - o mod 8)))
    | None => Raise TypeError
    end
  else Ok offset.

(** [int(v) if v is not None else None] *)
Definition int_or_None (v : value) : result (option Z) :=
  if negb (is_None v) then z <- int v ;; Ok (Some z) else Ok None.

Definition _load_signal (signal_json : value) (name : string)
  : result Signal.t :=
  let is_float := false in
  let labels : option (list (value * string)) := None in
  let notes : option string := None in
  let intercept := VInt 0 in
  let slope := VInt 1 in
  length <- (w <- _get_value signal_json "width" (VInt 1) ;; int w) ;;
  offset <- _get_value signal_json "start_position" VNone ;;
  offset <- int_or_None offset ;;
  signedness <- _get_value signal_json "signedness" (VStr "UNSIGNED") ;;
  let is_signed := if eq_str signedness "SIGNED" then true else false in
  endianness <- _get_value signal_json "endianness" (VStr "LITTLE") ;;
  let byte_order :=
    if eq_str endianness "BIG" then "big_endian" else "little_endian" in
  minimum <- _get_value signal_json "minimum" VNone ;;
  minimum <- int_or_None minimum ;;
  maximum <- _get_value signal_json "maximum" VNone ;;
  maximum <- int_or_None maximum ;;
  receivers <- _get_value signal_json "receivers" (VList []) ;;
  slope <- (s <- _get_value signal_json "scale" slope ;; float_ s) ;;
  unit <- _get_value signal_json "units" VNone ;;
  intercept <- (o <- _get_value signal_json "offset" (VInt 0) ;; float_ o) ;;
  let decimal := SignalDecimal.mk slope intercept in
  value_description <- _get_value signal_json "value_description" VNone ;;
  labels <-
    (if truthy value_description then
       kvs <- items value_description ;;
       labels <- foldM (fun labels kv => setitem labels (snd kv) (fst kv)) [] kvs ;;
       Ok (Some labels)
     else Ok labels) ;;
  start <- _start_bit offset byte_order ;;
  let signal :=
    Signal.mk name start length receivers byte_order is_signed slope intercept
      minimum maximum unit labels notes is_float decimal
      None false false None in
  mux_id <- _get_value signal_json "mux_id" VNone ;;
  signal <-
    (if negb (is_None mux_id) then
       id <- int mux_id ;;
       Ok (Signal.set_is_multiplexed (Signal.set_multiplexer_ids signal [id]) true)
     else Ok signal) ;;
  is_muxer <- _get_value signal_json "is_muxer" VNone ;;
  let signal :=
    if negb (is_None is_muxer) && eq_True is_muxer
    then Signal.set_is_multiplexer signal true
    else signal in
  Ok signal.

Definition _parse_signals (signals_json : value) : result (list Signal.t) :=
  kvs <- items signals_json ;;
  mapM (fun kv => _load_signal (snd kv) (fst kv)) kvs.

(** The first loop of [_load_message]: the name of the last signal that is
    a multiplexer, [None] when there is none. *)
Definition find_multiplexer (signals : list Signal.t) : option string :=
  fold_left
    (fun multiplexer signal =>
       if Signal.is_multiplexer signal then Some (Signal.name signal)
       else multiplexer)
    signals None.

(** [if signal.multiplexer_ids and len(signal.multiplexer_ids) > 0] *)
Definition has_multiplexer_ids (signal : Signal.t) : bool :=
  match Signal.multiplexer_ids signal with
  | Some [] | None => false
  | Some ids => 0 <? Z.of_nat (List.length ids)
  end.

(** The second loop of [_load_message]. *)
Definition assign_multiplexer (multiplexer : option string)
  (signals : list Signal.t) : list Signal.t :=
  match multiplexer with
  | Some m =>
      if negb (m =? "")%string then
        map (fun signal =>
               if has_multiplexer_ids signal
               then Signal.set_multiplexer_signal signal m
               else signal) signals
      else signals
  | None => signals
  end.

(** [l[-1]] *)
Definition last_item {A : Type} (l : list A) : result A :=
  match rev l with
  | x :: _ => Ok x
  | [] => Raise IndexError
  end.

(** [a + b] where [a] is an int or [None]. *)
Definition add (a : option Z) (b : Z) : result Z :=
  match a with
  | Some x => Ok (x + b)
  | None => Raise TypeError
  end.

Definition _load_message (message : value) (name : string) (bus_name : value)
  (strict : bool) : result Message.t :=
  frame_id <- (v <- _get_value message "message_id" (VInt 0) ;; int v) ;;
  let is_extended_frame := false in
  let notes : option string := None in
  length <- _get_value message "length_bytes" (VStr "auto") ;;
  cycle_time <- _get_value message "cycle_time" VNone ;;
  cycle_time <- int_or_None cycle_time ;;
  senders <- _get_value message "senders" (VList []) ;;
  send_type <- _get_value message "send_type" VNone ;;
  signals <- (s <- _get_value message "signals" (VDict []) ;; _parse_signals s) ;;
  let multiplexer := find_multiplexer signals in
  let signals := assign_multiplexer multiplexer signals in
  length <-
    (if eq_str length "auto" then
       match signals with
       | _ :: _ =>
           last_signal <- (l <- sorted signals start_bit ;; last_item l) ;;
           k <- start_bit last_signal ;;
           n <- add k (Signal.length last_signal) ;;
           Ok ((n + 7) / 8)
       | [] => Ok 0
       end
     else int length) ;;
  Ok (Message.mk frame_id is_extended_frame name length senders send_type
        cycle_time signals notes bus_name strict).

(** The message of the [ValueError] that [load_string] raises. *)
Definition expected_root : string :=
  ("Expected " ++ String "034" "messages" ++ String "034" " and "
   ++ String "034" "busMetadata" ++ String "034" " at root of the Odin JSON file")%string.

(** [try: c  except KeyError: raise e] *)
Definition except_KeyError {A : Type} (c : result A) (e : exception) : result A :=
  match c with
  | Raise KeyError => Raise e
  | _ => c
  end.

(** The loop of [load_string] over the entries of [messages]: the node set
    and the message list after them. *)
Definition load_messages (bus : value) (strict : bool)
  (kvs : list (string * value)) (nodes : list value) (messages : list Message.t)
  : result (list value * list Message.t) :=
  foldM
    (fun (st : list value * list Message.t) (kv : string * value) =>
       let (nodes, messages) := st in
       new_message <- _load_message (snd kv) (fst kv) bus strict ;;
       nodes <- set_update nodes (Message.senders new_message) ;;
       nodes <- foldM (fun nodes signal => set_update nodes (Signal.receivers signal))
                  nodes (Message.signals new_message) ;;
       Ok (nodes, messages ++ [new_message]))
    (nodes, messages) kvs.

(** [load_string(string, strict)].  [json.loads] is the JSON library's; its
    outcome on the text, a value or an exception, is the argument [loaded]. *)
Definition load_string (loaded : result value) (strict : bool)
  : result InternalDatabase.t :=
  root <- except_KeyError
            (odin <- loaded ;;
             messages_json <- getitem odin "messages" ;;
             bus_json <- getitem odin "busMetadata" ;;
             Ok (messages_json, bus_json))
            (ValueError (Some expected_root)) ;;
  let messages_json := fst root in
  let nodes : list value := [] in
  let bus := VNone in
  bus <- (b <- contains messages_json "name" ;;
          if b then getitem messages_json "name" else Ok bus) ;;
  let buses := if truthy bus then [bus] else [] in
  kvs <- items messages_json ;;
  st <- load_messages bus strict kvs nodes [] ;;
  let (nodes, messages) := st in
  Ok (InternalDatabase.mk messages
        (map (fun node => Node.mk node None) nodes)
        buses
        "0").

(* ===================================================================== *)
(** ** Vocabulary of the properties *)
(* ===================================================================== *)

(** Two keyed items are in order: both sort keys are ints, the first at
    most the second. *)
Definition key_le {A : Type} (p q : option Z * A) : Prop :=
  exists a b, fst p = Some a /\ fst q = Some b /\ a <= b.

(** The names that iterating over [v] gives. *)
Definition names (v : value) : list value :=
  match iter v with
  | Ok l => l
  | Raise _ => []
  end.

(** The senders of a message and the receivers of its signals. *)
Definition message_names (m : Message.t) : list value :=
  names (Message.senders m)
  ++ flat_map (fun s => names (Signal.receivers s)) (Message.signals m).

(** The senders of all the messages and the receivers of all their
    signals, in document order and with repetitions. *)
Definition all_names (messages : list Message.t) : list value :=
  flat_map message_names messages.

(** No element of the sequence is equal to a later one. *)
Fixpoint distinct (s : list value) : Prop :=
  match s with
  | [] => True
  | x :: s' => set_mem x s' = false /\ distinct s'
  end.

(** The set [s'] is the set [s] with the values satisfying [P] added:
    its members are those of [s] and the values equal to one satisfying
    [P], its new elements satisfy [P], and it stays free of duplicates. *)
Definition extends (P : value -> Prop) (s s' : list value) : Prop :=
  (forall y, set_mem y s' = true
             <-> set_mem y s = true \/ exists x, P x /\ key_eqb x y = true)
  /\ (forall z, In z s' -> In z s \/ P z)
  /\ (distinct s -> distinct s').

(** A document with the given entries in its [messages] record and an
    empty [busMetadata] record. *)
Definition document (messages : list (string * value)) : value :=
  VDict [("messages", VDict messages); ("busMetadata", VDict [])].

(** The message that the specification quotes for a missing root key. *)
Definition quoted_root_message : string :=
  "Expected 'messages' and 'busMetadata' at root of the document".

(** A field that is absent or holds an int. *)
Definition int_or_absent (o : option value) : bool :=
  match o with
  | None | Some (VInt _) => true
  | Some _ => false
  end.

(** A field that is absent or holds a float. *)
Definition float_or_absent (o : option value) : bool :=
  match o with
  | None | Some (VFloat _) => true
  | Some _ => false
  end.

(** A field that is absent or holds a list of hashable values (names). *)
Definition names_or_absent (o : option value) : bool :=
  match o with
  | None => true
  | Some (VList l) => forallb hashable l
  | Some _ => false
  end.

(** A signal record whose fields have the types of the format: an int
    [start_position]; where present, int [width], [minimum], [maximum] and
    [mux_id], float [scale] and [offset], a list of names as [receivers]
    and a table of hashable raw values as [value_description]. *)
Definition well_typed_signal (d : list (string * value)) : bool :=
  match lookup "start_position" d with Some (VInt _) => true | _ => false end
  && int_or_absent (lookup "width" d)
  && int_or_absent (lookup "minimum" d)
  && int_or_absent (lookup "maximum" d)
  && int_or_absent (lookup "mux_id" d)
  && float_or_absent (lookup "scale" d)
  && float_or_absent (lookup "offset" d)
  && names_or_absent (lookup "receivers" d)
  && match lookup "value_description" d with
     | None => true
     | Some (VDict t) => forallb (fun kv => hashable (snd kv)) t
     | Some _ => false
     end.

(** A message record whose fields have the types of the format: where
    present, int [message_id] and [cycle_time], a [length_bytes] that is an
    int or the string [auto], a list of names as [senders] and an object of
    well-typed signal records as [signals]. *)
Definition well_typed_message (d : list (string * value)) : bool :=
  int_or_absent (lookup "message_id" d)
  && int_or_absent (lookup "cycle_time" d)
  && match lookup "length_bytes" d with
     | None | Some (VInt _) => true
     | Some (VStr s) => (s =? "auto")%string
     | Some _ => false
     end
  && names_or_absent (lookup "senders" d)
  && match lookup "signals" d with
     | None => true
     | Some (VDict sigs) =>
         forallb (fun kv => match snd kv with
                            | VDict sd => well_typed_signal sd
                            | _ => false
                            end) sigs
     | Some _ => false
     end.

(** A value that is a list of hashable values (names). *)
Definition is_names (v : value) : bool :=
  match v with
  | VList l => forallb hashable l
  | _ => false
  end.

(** A signal that has a start bit and a list of names as receivers. *)
Definition placed (s : Signal.t) : Prop :=
  (exists o, Signal.start s = Some o) /\ is_names (Signal.receivers s) = true.

(** A document whose root has the [messages] object and a [busMetadata]
    entry, every entry of [messages] being a well-typed message record. *)
Definition well_typed_document (root : list (string * value)) : bool :=
  match lookup "messages" root, lookup "busMetadata" root with
  | Some (VDict entries), Some _ =>
      forallb (fun kv => match snd kv with
                         | VDict md => well_typed_message md
                         | _ => false
                         end) entries
  | _, _ => false
  end.

(** The names of the fields that [_load_message] reads, in the order it
    reads them. *)
Definition message_fields : list string :=
  ["message_id"; "length_bytes"; "cycle_time"; "senders"; "send_type"; "signals"].

(* ===================================================================== *)
(** ** General facts: the result monad and the containers *)
(* ===================================================================== *)

Lemma bind_Ok {A B : Type} (c : result A) (k : A -> result B) (b : B) :
  bind c k = Ok b -> exists a, c = Ok a /\ k a = Ok b.
Proof.
  destruct c as [a|e]; simpl; intros H; [now exists a | discriminate].
Qed.

(** Splits a successful run of binds into its steps. *)
Ltac bind_inv H :=
  let x := fresh "x" in
  let Hx := fresh "E" x in
  apply bind_Ok in H; destruct H as (x & Hx & H).

Ltac binds_inv H := repeat bind_inv H.

Tactic Notation "bind_split" hyp(H) "as" ident(x) ident(Hx) :=
  apply bind_Ok in H; destruct H as (x & Hx & H).


Lemma mapM_Forall2 {A B : Type} (f : A -> result B) (l : list A) (r : list B) :
  mapM f l = Ok r -> Forall2 (fun x y => f x = Ok y) l r.
Proof.
  revert r; induction l as [|x l IH]; simpl; intros r H.
  - injection H as <-. constructor.
  - binds_inv H. injection H as <-. constructor; auto.
Qed.

Lemma numeric_same_sym (a b : numeric) : numeric_same a b = numeric_same b a.
Proof.
  destruct a, b; simpl; try reflexivity.
  - apply Qeq_bool_comm.
  - now destruct negative, negative0.
Qed.

Lemma numeric_same_trans (a b c : numeric) :
  numeric_same a b = true -> numeric_same b c = true -> numeric_same a c = true.
Proof.
  destruct a, b, c; simpl; try discriminate; try (intros; assumption).
  - apply Qeq_bool_trans.
  - destruct negative, negative0, negative1; simpl; congruence.
Qed.

Lemma key_eqb_sym (a b : value) : key_eqb a b = key_eqb b a.
Proof.
  unfold key_eqb, numeric_of; destruct a, b; cbv beta iota;
    try reflexivity; try apply numeric_same_sym; apply String.eqb_sym.
Qed.

Lemma key_eqb_trans (a b c : value) :
  key_eqb a b = true -> key_eqb b c = true -> key_eqb a c = true.
Proof.
  unfold key_eqb, numeric_of; destruct a, b; cbv beta iota; try discriminate;
    destruct c; cbv beta iota; try discriminate; try (intros; assumption);
    try apply numeric_same_trans.
  intros H1 H2. apply String.eqb_eq in H1, H2. apply String.eqb_eq. congruence.
Qed.

Lemma numeric_same_refl (a : numeric) : numeric_same a a = true.
Proof.
  destruct a; simpl; [apply Qeq_bool_refl | now destruct negative | reflexivity].
Qed.

Lemma key_eqb_refl (a : value) : hashable a = true -> key_eqb a a = true.
Proof.
  unfold key_eqb, numeric_of; destruct a; cbv beta iota; simpl hashable;
    try discriminate; intros _;
    try reflexivity; try apply numeric_same_refl; apply String.eqb_refl.
Qed.




(* ===================================================================== *)
(** ** The bit position normalizer and the signal builder *)
(* ===================================================================== *)

(** The steps of a successful [_load_signal], in source order. *)
Ltac load_signal_inv H :=
  unfold _load_signal in H; binds_inv H;
  match type of H with Ok _ = Ok _ => injection H as H end.

(** C1.  For every raw offset [o] (so for every non-negative one), the
    normalizer returns [8 * (o div 8) + (7 - o mod 8)] for a big-endian
    signal and [o] itself for a little-endian one; at the offsets 0, 1, 7,
    8, 9, 15 and 16 the big-endian results are 7, 6, 0, 15, 14, 8 and 23. *)
Theorem start_bit_normalizer :
  (forall o : Z,
      _start_bit (Some o) "big_endian" = Ok (Some (8 * (o / 8) + (7 - o mod 8)))
      /\ _start_bit (Some o) "little_endian" = Ok (Some o))
  /\ map (fun o => _start_bit (Some o) "big_endian") [0; 1; 7; 8; 9; 15; 16]
     = map (fun r => Ok (Some r)) [7; 6; 0; 15; 14; 8; 23]
  /\ map (fun o => _start_bit (Some o) "little_endian") [0; 1; 7; 8; 9; 15; 16]
     = map (fun r => Ok (Some r)) [0; 1; 7; 8; 9; 15; 16].
Proof.
  split; [|split]; [intros o; split | |]; reflexivity.
Qed.

(** The two outcomes of the [mux_id] step, then the signal itself. *)
Ltac load_signal_cases H :=
  load_signal_inv H;
  match goal with
  | E : (if negb (is_None ?v) then _ else _) = Ok _ |- _ =>
      destruct (is_None v) eqn:?; simpl in E; [| bind_inv E]; injection E as E
  end;
  subst.

Ltac muxer_case :=
  match goal with
  | |- context [if ?c then Signal.set_is_multiplexer _ _ else _] => destruct c eqn:?
  end.

(** What [_load_signal] read to place the signal. *)
Lemma _load_signal_start (signal_json : value) (name : string) (s : Signal.t) :
  _load_signal signal_json name = Ok s ->
  exists position offset endianness,
    _get_value signal_json "start_position" VNone = Ok position
    /\ int_or_None position = Ok offset
    /\ _get_value signal_json "endianness" (VStr "LITTLE") = Ok endianness
    /\ Signal.byte_order s
       = (if eq_str endianness "BIG" then "big_endian" else "little_endian")
    /\ _start_bit offset (Signal.byte_order s) = Ok (Signal.start s).
Proof.
  intros H. load_signal_cases H; muxer_case; simpl; eauto 10.
Qed.

(** What [_load_signal] made of the [value_description] field. *)
Lemma _load_signal_labels (signal_json : value) (name : string) (s : Signal.t) :
  _load_signal signal_json name = Ok s ->
  exists value_description,
    _get_value signal_json "value_description" VNone = Ok value_description
    /\ (if truthy value_description then
          exists kvs labels,
            items value_description = Ok kvs
            /\ foldM (fun labels kv => setitem labels (snd kv) (fst kv)) [] kvs
               = Ok labels
            /\ Signal.choices s = Some labels
        else Signal.choices s = None).
Proof.
  intros H. load_signal_cases H;
    (eexists; split; [eassumption|]);
    match goal with
    | E : (if truthy ?v then _ else _) = Ok _ |- _ =>
        destruct (truthy v); [binds_inv E|]; injection E as <-
    end;
    muxer_case; simpl; eauto.
Qed.

(** What [_load_signal] made of the [mux_id] and [is_muxer] fields. *)
Lemma _load_signal_mux (signal_json : value) (name : string) (s : Signal.t) :
  _load_signal signal_json name = Ok s ->
  exists mux_id is_muxer,
    _get_value signal_json "mux_id" VNone = Ok mux_id
    /\ _get_value signal_json "is_muxer" VNone = Ok is_muxer
    /\ (if is_None mux_id
        then Signal.multiplexer_ids s = None /\ Signal.is_multiplexed s = false
        else exists id, int mux_id = Ok id
                        /\ Signal.multiplexer_ids s = Some [id]
                        /\ Signal.is_multiplexed s = true)
    /\ Signal.is_multiplexer s = negb (is_None is_muxer) && eq_True is_muxer
    /\ Signal.multiplexer_signal s = None.
Proof.
  intros H. load_signal_cases H;
    (do 2 eexists; split; [eassumption|]; split; [eassumption|]);
    match goal with E : is_None _ = _ |- _ => rewrite E end;
    muxer_case; simpl; eauto 10.
Qed.

(** The name and the receivers of the signal [_load_signal] returns. *)
Lemma _load_signal_name (signal_json : value) (name : string) (s : Signal.t) :
  _load_signal signal_json name = Ok s ->
  Signal.name s = name
  /\ _get_value signal_json "receivers" (VList []) = Ok (Signal.receivers s).
Proof.
  intros H. load_signal_cases H; muxer_case; simpl; auto.
Qed.

Lemma _get_value_dict (d : list (string * value)) (key : string) (default : value) :
  _get_value (VDict d) key default
  = Ok (match lookup key d with Some v => v | None => default end).
Proof.
  unfold _get_value; simpl. now destruct (lookup key d).
Qed.



(** C10.  When the signal record has a [value_description] field that is
    an empty mapping, the built signal's [choices] is absent ([None]), not
    an empty mapping. *)
Theorem empty_value_description
  (signal_json : value) (name : string) (s : Signal.t) :
  _load_signal signal_json name = Ok s ->
  _get_value signal_json "value_description" VNone = Ok (VDict []) ->
  Signal.choices s = None.
Proof.
  intros H Hvd.
  destruct (_load_signal_labels _ _ _ H) as (vd & Hvd' & Hl).
  rewrite Hvd in Hvd'. injection Hvd' as <-. exact Hl.
Qed.

Lemma empty_value_description_witness :
  exists s,
    _load_signal
      (VDict [("start_position", VInt 0); ("value_description", VDict [])])
      "state" = Ok s
    /\ Signal.choices s = None.
Proof.
  eexists. split; [reflexivity|].
  apply (empty_value_description
           (VDict [("start_position", VInt 0); ("value_description", VDict [])])
           "state" _ eq_refl eq_refl).
Defined.

(* ===================================================================== *)
(** ** Sorting by start bit *)
(* ===================================================================== *)

Section Sorting.
Context {A : Type}.

Lemma insert_In (k : option Z) (x : A) (l r : list (option Z * A)) :
  insert k x l = Ok r -> forall p, In p r <-> p = (k, x) \/ In p l.
Proof.
  revert r; induction l as [|[k' y] l IH]; simpl; intros r H p.
  - injection H as <-. simpl. intuition.
  - bind_split H as b Hb. destruct b.
    + bind_split H as r' Hr'. injection H as <-. simpl. rewrite (IH _ Hr'). intuition.
    + injection H as <-. simpl. intuition.
Qed.

Lemma insert_sorted (k : option Z) (x : A) (l r : list (option Z * A)) :
  insert k x l = Ok r ->
  StronglySorted key_le l -> StronglySorted key_le r.
Proof.
  revert r; induction l as [|[k' y] l IH]; simpl; intros r H Hs.
  - injection H as <-. repeat constructor.
  - bind_split H as c Hc.
    destruct k' as [a|], k as [b|]; try discriminate.
    injection Hc as <-.
    inversion Hs as [|? ? Hs' Hall]; subst.
    destruct (a <? b) eqn:Hab.
    + bind_split H as r' Hr'. injection H as <-.
      constructor; [now apply IH|].
      apply Forall_forall. intros p Hp.
      apply (insert_In _ _ _ _ Hr') in Hp. destruct Hp as [->|Hp].
      * exists a, b. simpl. apply Z.ltb_lt in Hab. repeat split; lia.
      * rewrite Forall_forall in Hall. now apply Hall.
    + injection H as <-. apply Z.ltb_ge in Hab.
      constructor; [assumption|].
      constructor.
      * exists b, a. simpl. auto.
      * apply Forall_forall. intros p Hp.
        rewrite Forall_forall in Hall.
        destruct (Hall p Hp) as (a' & c & Ha & Hc & Hac).
        simpl in Ha. injection Ha as <-.
        exists b, c. simpl. repeat split; auto; lia.
Qed.

Lemma sort_keyed_spec (l r : list (option Z * A)) :
  sort_keyed l = Ok r ->
  StronglySorted key_le r /\ (forall p, In p r <-> In p l).
Proof.
  revert r; induction l as [|[k x] l IH]; simpl; intros r H.
  - injection H as <-. split; [constructor | tauto].
  - bind_split H as r' Hr'. destruct (IH _ Hr') as [Hs Hin]. split.
    + eapply insert_sorted; eauto.
    + intros p. rewrite (insert_In _ _ _ _ H), Hin. simpl. intuition.
Qed.

Lemma StronglySorted_last (R : A -> A -> Prop) (l : list A) (z : A) :
  StronglySorted R (l ++ [z]) -> Forall (fun p => R p z) l.
Proof.
  induction l as [|x l IH]; simpl; intros H; [constructor|].
  inversion H as [|? ? Hs Hall]; subst. constructor.
  - rewrite Forall_forall in Hall. apply Hall, in_or_app. simpl. auto.
  - now apply IH.
Qed.

End Sorting.

(** [sorted(signals, key=start_bit)[-1]] is a signal of the list, and
    every other signal has an int key that is at most its key. *)
Lemma sorted_last (signals : list Signal.t) (z : Signal.t) :
  (l <- sorted signals start_bit ;; last_item l) = Ok z ->
  In z signals
  /\ forall s, In s signals ->
               s = z \/ exists a b, Signal.start s = Some a
                                    /\ Signal.start z = Some b /\ a <= b.
Proof.
  intros H. bind_split H as r Hr. unfold sorted in Hr.
  bind_split Hr as x0 Hx0. bind_split Hr as x1 Hx1s. injection Hr as <-.
  assert (Hkl : x0 = map (fun s => (Signal.start s, s)) signals).
  { clear - Hx0. revert x0 Hx0. induction signals as [|s l IH]; simpl; intros kl H.
    - now injection H as <-.
    - binds_inv H. injection H as <-. f_equal. now apply IH. }
  subst x0. destruct (sort_keyed_spec _ _ Hx1s) as [Hs Hin].
  unfold last_item in H. destruct (rev (map snd x1)) as [|z' t] eqn:Hrev; [discriminate|].
  injection H as ->.
  assert (Hx1 : map snd x1 = rev t ++ [z]).
  { rewrite <- (rev_involutive (map snd x1)), Hrev. reflexivity. }
  destruct (rev x1) as [|[kz z0] t'] eqn:Hrev'.
  { apply (f_equal (@rev _)) in Hrev'. rewrite rev_involutive in Hrev'.
    subst x1. destruct (rev t); discriminate. }
  assert (Hx1' : x1 = rev t' ++ [(kz, z0)]).
  { rewrite <- (rev_involutive x1), Hrev'. reflexivity. }
  assert (z0 = z).
  { rewrite Hx1', map_app in Hx1. simpl in Hx1.
    apply app_inj_tail in Hx1. now destruct Hx1. }
  subst z0.
  assert (Hz : In (kz, z) (map (fun s => (Signal.start s, s)) signals)).
  { apply Hin. rewrite Hx1'. apply in_or_app. simpl. auto. }
  apply in_map_iff in Hz. destruct Hz as (z' & Hz' & Hz).
  injection Hz' as <- ->.
  split; [assumption|].
  intros s Hsin.
  assert (Hp : In (Signal.start s, s) x1).
  { apply Hin, in_map_iff. eauto. }
  rewrite Hx1' in Hp, Hs. apply in_app_or in Hp. destruct Hp as [Hp|Hp].
  - right. apply StronglySorted_last in Hs. rewrite Forall_forall in Hs.
    destruct (Hs _ Hp) as (a & b & Ha & Hb & Hab). simpl in Ha, Hb. eauto.
  - left. simpl in Hp. destruct Hp as [Hp|[]]. now injection Hp.
Qed.

(* ===================================================================== *)
(** ** The message builder *)
(* ===================================================================== *)

Lemma _parse_signals_Ok (signals_json : value) (parsed : list Signal.t) :
  _parse_signals signals_json = Ok parsed ->
  exists entries,
    signals_json = VDict entries
    /\ Forall2 (fun kv s => _load_signal (snd kv) (fst kv) = Ok s) entries parsed.
Proof.
  unfold _parse_signals. intros H. bind_split H as kvs Hkvs.
  destruct signals_json; try discriminate. injection Hkvs as ->.
  exists kvs. split; [reflexivity|]. now apply mapM_Forall2 in H.
Qed.

(** The steps of a successful [_load_message]. *)
Lemma _load_message_Ok (message : value) (name : string) (bus : value)
  (strict : bool) (m : Message.t) :
  _load_message message name bus strict = Ok m ->
  exists raw_length signals_json parsed,
    _get_value message "length_bytes" (VStr "auto") = Ok raw_length
    /\ _get_value message "signals" (VDict []) = Ok signals_json
    /\ _parse_signals signals_json = Ok parsed
    /\ Message.signals m = assign_multiplexer (find_multiplexer parsed) parsed
    /\ _get_value message "senders" (VList []) = Ok (Message.senders m)
    /\ Message.name m = name
    /\ Message.bus_name m = bus
    /\ (if eq_str raw_length "auto" then
          match Message.signals m with
          | _ :: _ =>
              last_signal <- (l <- sorted (Message.signals m) start_bit ;;
                              last_item l) ;;
              k <- start_bit last_signal ;;
              n <- add k (Signal.length last_signal) ;;
              Ok ((n + 7) / 8)
          | [] => Ok 0
          end
        else int raw_length) = Ok (Message.length m).
Proof.
  unfold _load_message. intros H. binds_inv H. injection H as <-. simpl.
  match goal with
  | E : bind (_get_value message "signals" _) _ = Ok _ |- _ =>
      bind_split E as signals_json Hs
  end.
  eauto 12.
Qed.

Lemma find_multiplexer_app (l l' : list Signal.t) :
  find_multiplexer (l ++ l')
  = match find_multiplexer l' with
    | Some n => Some n
    | None => find_multiplexer l
    end.
Proof.
  unfold find_multiplexer. rewrite fold_left_app.
  generalize (fold_left
                (fun multiplexer signal =>
                   if Signal.is_multiplexer signal then Some (Signal.name signal)
                   else multiplexer) l None).
  induction l' as [|s l' IH] using rev_ind; intros acc; simpl.
  - now destruct acc.
  - rewrite !fold_left_app. simpl.
    destruct (Signal.is_multiplexer s); [reflexivity | apply IH].
Qed.

Lemma find_multiplexer_none (l : list Signal.t) :
  Forall (fun s => Signal.is_multiplexer s = false) l ->
  find_multiplexer l = None.
Proof.
  induction l as [|s l IH] using rev_ind; intros H; [reflexivity|].
  apply Forall_app in H. destruct H as [Hl Hs].
  rewrite find_multiplexer_app. inversion Hs as [|? ? Hs' _]; subst.
  unfold find_multiplexer at 1. simpl. rewrite Hs'. now apply IH.
Qed.

(** The multiplexer found is the last signal marked as one. *)
Lemma find_multiplexer_last (before after : list Signal.t) (mux : Signal.t) :
  Signal.is_multiplexer mux = true ->
  Forall (fun s => Signal.is_multiplexer s = false) after ->
  find_multiplexer (before ++ mux :: after) = Some (Signal.name mux).
Proof.
  intros Hm Ha.
  change (mux :: after) with ([mux] ++ after).
  rewrite app_assoc, find_multiplexer_app, (find_multiplexer_none _ Ha).
  rewrite find_multiplexer_app. unfold find_multiplexer at 1. simpl.
  now rewrite Hm.
Qed.

Lemma find_multiplexer_map (g : Signal.t -> Signal.t) (l : list Signal.t) :
  (forall s, Signal.is_multiplexer (g s) = Signal.is_multiplexer s
             /\ Signal.name (g s) = Signal.name s) ->
  find_multiplexer (map g l) = find_multiplexer l.
Proof.
  intros Hg. induction l as [|s l IH] using rev_ind; [reflexivity|].
  rewrite map_app, !find_multiplexer_app. simpl.
  unfold find_multiplexer at 1 3. simpl.
  destruct (Hg s) as [-> ->]. now rewrite IH.
Qed.

(** The signals after the assignment loop, when it runs. *)
Lemma assign_multiplexer_Some (m : string) (l : list Signal.t) :
  m <> "" ->
  assign_multiplexer (Some m) l
  = map (fun signal =>
           if has_multiplexer_ids signal
           then Signal.set_multiplexer_signal signal m
           else signal) l.
Proof.
  intros Hm. unfold assign_multiplexer.
  destruct (String.eqb_spec m ""); [contradiction | reflexivity].
Qed.

Lemma find_multiplexer_assign (mx : option string) (l : list Signal.t) :
  find_multiplexer (assign_multiplexer mx l) = find_multiplexer l.
Proof.
  unfold assign_multiplexer. destruct mx as [m|]; [|reflexivity].
  destruct (negb (m =? "")%string); [|reflexivity].
  apply find_multiplexer_map. intros s.
  now destruct (has_multiplexer_ids s).
Qed.

(** What holds of every parsed signal whatever its [multiplexer_signal]
    holds of the signals after the assignment loop. *)
Lemma assign_multiplexer_Forall2 {K : Type} (P : K -> Signal.t -> Prop)
  (mx : option string) (entries : list K) (l : list Signal.t) :
  (forall k s m, P k s -> P k (Signal.set_multiplexer_signal s m)) ->
  Forall2 P entries l -> Forall2 P entries (assign_multiplexer mx l).
Proof.
  intros HP H. unfold assign_multiplexer. destruct mx as [m|]; [|assumption].
  destruct (negb (m =? "")%string); [|assumption].
  induction H; simpl; constructor; auto.
  destruct (has_multiplexer_ids y); auto.
Qed.

(** C3.  When the raw [length_bytes] of a message is [auto]: with no
    signal the length is 0; otherwise it is the ceiling of [(s + l) / 8]
    where [s] is the greatest start bit among the message's signals and [l]
    the bit length of a signal that has it.  When [length_bytes] is anything
    else, the length is [int] of it.  Two 8-bit signals at bits 0 and 16
    give the length 3. *)
Theorem message_length_resolution
  (message : value) (name : string) (bus : value) (strict : bool)
  (m : Message.t) (raw : value) :
  _load_message message name bus strict = Ok m ->
  _get_value message "length_bytes" (VStr "auto") = Ok raw ->
  (eq_str raw "auto" = true ->
     (Message.signals m = [] -> Message.length m = 0)
     /\ (Message.signals m <> [] ->
         exists sig s,
           In sig (Message.signals m)
           /\ Signal.start sig = Some s
           /\ (forall sig', In sig' (Message.signals m) ->
                            exists s', Signal.start sig' = Some s' /\ s' <= s)
           /\ 8 * (Message.length m - 1) < s + Signal.length sig
              <= 8 * Message.length m))
  /\ (eq_str raw "auto" = false -> int raw = Ok (Message.length m))
  /\ (exists m3,
         _load_message
           (VDict [("signals",
                    VDict [("a", VDict [("start_position", VInt 0); ("width", VInt 8)]);
                           ("b", VDict [("start_position", VInt 16); ("width", VInt 8)])])])
           name bus strict = Ok m3
         /\ Message.length m3 = 3).
Proof.
  intros H Hraw.
  destruct (_load_message_Ok _ _ _ _ _ H)
    as (raw' & sj & parsed & Hraw' & _ & _ & _ & _ & _ & _ & Hlen).
  rewrite Hraw in Hraw'. injection Hraw' as <-.
  split; [|split].
  - intros Hauto. rewrite Hauto in Hlen. split.
    + intros Hnil. rewrite Hnil in Hlen. now injection Hlen.
    + intros Hne. destruct (Message.signals m) as [|s0 l0] eqn:Hsig; [contradiction|].
      rewrite <- Hsig in *. clear Hne.
      bind_split Hlen as z Hz. bind_split Hlen as k Hk. bind_split Hlen as n Hn.
      injection Hlen as Hlen.
      destruct (sorted_last _ _ Hz) as [Hin Hmax].
      unfold start_bit in Hk. injection Hk as <-.
      destruct (Signal.start z) as [b|] eqn:Hb; [|discriminate].
      injection Hn as <-.
      exists z, b. split; [assumption|]. split; [assumption|]. split.
      * intros sig' Hsig'. destruct (Hmax _ Hsig') as [->|(a & b' & Ha & Hb' & Hab)].
        -- exists b. split; [assumption | lia].
        -- exists a. split; [assumption|]. congruence.
      * rewrite <- Hlen.
        pose proof (Z.div_mod (b + Signal.length z + 7) 8 ltac:(lia)).
        pose proof (Z.mod_pos_bound (b + Signal.length z + 7) 8 ltac:(lia)).
        lia.
  - intros Hauto. now rewrite Hauto in Hlen.
  - eexists. split; reflexivity.
Qed.

Lemma message_length_resolution_witness :
  exists m,
    _load_message
      (VDict [("message_id", VInt 1);
              ("signals",
               VDict [("b", VDict [("start_position", VInt 16); ("width", VInt 8)]);
                      ("a", VDict [("start_position", VInt 0); ("width", VInt 8)])])])
      "M" VNone true = Ok m
    /\ Message.length m = 3
    /\ exists sig s,
         In sig (Message.signals m)
         /\ Signal.start sig = Some s
         /\ (forall sig', In sig' (Message.signals m) ->
                          exists s', Signal.start sig' = Some s' /\ s' <= s)
         /\ 8 * (Message.length m - 1) < s + Signal.length sig
            <= 8 * Message.length m.
Proof.
  eexists. split; [reflexivity|]. split; [reflexivity|].
  refine (proj2 (proj1 (message_length_resolution
                          (VDict [("message_id", VInt 1);
                                  ("signals",
                                   VDict [("b", VDict [("start_position", VInt 16); ("width", VInt 8)]);
                                          ("a", VDict [("start_position", VInt 0); ("width", VInt 8)])])])
                          "M" VNone true _ (VStr "auto") eq_refl eq_refl)
                   eq_refl) _).
  discriminate.
Defined.

(** C4, in the form the loader satisfies. In a built message: when the last
    signal marked [is_multiplexer] has a non-empty name, every signal with a
    non-empty [multiplexer_ids] has [multiplexer_signal] set to that name;
    when no signal is marked [is_multiplexer], the [multiplexer_signal] of
    every signal stays unset; and the signal built from a record whose
    [mux_id] is the int [n] has [multiplexer_ids = [n]] and [is_multiplexed
    = true]. *)
Theorem multiplexer_assignment
  (message : value) (name : string) (bus : value) (strict : bool)
  (m : Message.t) :
  _load_message message name bus strict = Ok m ->
  (forall before mux after,
      Message.signals m = before ++ mux :: after ->
      Signal.is_multiplexer mux = true ->
      Forall (fun s => Signal.is_multiplexer s = false) after ->
      Signal.name mux <> "" ->
      forall s id ids,
        In s (Message.signals m) ->
        Signal.multiplexer_ids s = Some (id :: ids) ->
        Signal.multiplexer_signal s = Some (Signal.name mux))
  /\ (Forall (fun s => Signal.is_multiplexer s = false) (Message.signals m) ->
      Forall (fun s => Signal.multiplexer_signal s = None) (Message.signals m))
  /\ (forall entries,
         _get_value message "signals" (VDict []) = Ok (VDict entries) ->
         Forall2
           (fun kv s =>
              Signal.name s = fst kv
              /\ forall n, _get_value (snd kv) "mux_id" VNone = Ok (VInt n) ->
                           Signal.multiplexer_ids s = Some [n]
                           /\ Signal.is_multiplexed s = true)
           entries (Message.signals m)).
Proof.
  intros H.
  destruct (_load_message_Ok _ _ _ _ _ H)
    as (raw & sj & parsed & _ & Hsj & Hparsed & Hsig & _).
  destruct (_parse_signals_Ok _ _ Hparsed) as (entries & -> & Hall).
  split; [|split].
  - intros before mux after Hdec Hmux Hafter Hname s id ids Hs Hids.
    pose proof (find_multiplexer_last before after mux Hmux Hafter) as Hfind.
    rewrite <- Hdec, Hsig, find_multiplexer_assign in Hfind.
    rewrite Hfind, (assign_multiplexer_Some _ _ Hname) in Hsig.
    rewrite Hsig in Hs. apply in_map_iff in Hs. destruct Hs as (s0 & <- & _).
    destruct (has_multiplexer_ids s0) eqn:Hhas; [reflexivity|].
    exfalso. unfold has_multiplexer_ids in Hhas. rewrite Hids in Hhas.
    simpl in Hhas. apply Z.ltb_ge in Hhas. lia.
  - intros Hnone.
    pose proof (find_multiplexer_none _ Hnone) as Hfind.
    rewrite Hsig, find_multiplexer_assign in Hfind.
    rewrite Hfind in Hsig. simpl in Hsig. rewrite Hsig.
    clear - Hall. induction Hall as [|kv s ? ? Hs]; constructor; auto.
    now destruct (_load_signal_mux _ _ _ Hs) as (? & ? & _ & _ & _ & _ & ?).
  - intros entries' Hentries. rewrite Hsj in Hentries. injection Hentries as <-.
    rewrite Hsig. apply assign_multiplexer_Forall2; [auto|].
    clear - Hall. induction Hall as [|kv s ? ? Hs]; constructor; auto.
    split; [now destruct (_load_signal_name _ _ _ Hs)|].
    intros n Hn.
    destruct (_load_signal_mux _ _ _ Hs) as (v & ? & Hv & _ & Hids & _).
    rewrite Hn in Hv. injection Hv as <-. simpl in Hids.
    destruct Hids as (id & Hid & ? & ?). injection Hid as <-. auto.
Qed.

Lemma multiplexer_assignment_witness :
  exists m a mux b,
    _load_message
      (VDict [("signals",
               VDict [("a", VDict [("start_position", VInt 0); ("mux_id", VInt 1)]);
                      ("M", VDict [("start_position", VInt 8); ("is_muxer", VBool true)]);
                      ("b", VDict [("start_position", VInt 16); ("mux_id", VInt 2)])])])
      "msg" VNone true = Ok m
    /\ Message.signals m = [a; mux; b]
    /\ Signal.name mux = "M"
    /\ Signal.multiplexer_ids b = Some [2]
    /\ Signal.multiplexer_signal a = Some (Signal.name mux)
    /\ Signal.multiplexer_signal b = Some (Signal.name mux).
Proof.
  match goal with
  | |- exists m a mux b, ?load = Ok m /\ _ =>
      let r := eval vm_compute in load in
      match r with
      | Ok ?v =>
          assert (Hm : load = Ok v) by (vm_compute; reflexivity);
          exists v
      end
  end.
  do 3 eexists. split; [exact Hm|]. split; [reflexivity|].
  split; [reflexivity|]. split; [reflexivity|].
  pose proof (proj1 (multiplexer_assignment _ _ _ _ _ Hm)) as H.
  split.
  - eapply (H [_] _ [_] eq_refl);
      [reflexivity | repeat constructor | discriminate | simpl; auto | reflexivity].
  - eapply (H [_] _ [_] eq_refl);
      [reflexivity | repeat constructor | discriminate | simpl; auto | reflexivity].
Defined.

(** A multiplexer whose name is the empty string is found but not
    assigned: the multiplexed signal keeps [multiplexer_signal] unset. *)
Lemma multiplexer_named_empty_not_assigned :
  exists m mux s,
    _load_message
      (VDict [("signals",
               VDict [("", VDict [("start_position", VInt 0); ("is_muxer", VBool true)]);
                      ("s", VDict [("start_position", VInt 8); ("mux_id", VInt 2)])])])
      "msg" VNone true = Ok m
    /\ Message.signals m = [mux; s]
    /\ Signal.is_multiplexer mux = true
    /\ Signal.multiplexer_ids s = Some [2]
    /\ Signal.multiplexer_signal s = None
    /\ Signal.multiplexer_signal s <> Some (Signal.name mux).
Proof.
  do 3 eexists. repeat (split; [reflexivity|]). discriminate.
Qed.

(* ===================================================================== *)
(** ** The node set *)
(* ===================================================================== *)

Lemma set_mem_app (y : value) (s t : list value) :
  set_mem y (s ++ t) = set_mem y s || set_mem y t.
Proof. apply existsb_app. Qed.

Lemma set_mem_true (y : value) (s : list value) :
  set_mem y s = true <-> exists z, In z s /\ key_eqb z y = true.
Proof. apply existsb_exists. Qed.

Lemma set_add_Ok (s s' : list value) (x : value) :
  set_add s x = Ok s' ->
  hashable x = true /\ s' = (if set_mem x s then s else s ++ [x]).
Proof.
  unfold set_add. destruct (hashable x); [|discriminate].
  intros H. injection H as <-. auto.
Qed.

Lemma extends_refl (s : list value) : extends (fun _ => False) s s.
Proof.
  repeat split; auto.
  intros [H|(x & [] & _)]; assumption.
Qed.

Lemma extends_trans (P Q : value -> Prop) (s s' s'' : list value) :
  extends P s s' -> extends Q s' s'' -> extends (fun x => P x \/ Q x) s s''.
Proof.
  intros (Hm & Hi & Hd) (Hm' & Hi' & Hd'). repeat split.
  - intros H. apply Hm' in H. destruct H as [H|(x & Hx & Hxy)].
    + apply Hm in H. destruct H as [H|(x & Hx & Hxy)]; eauto.
    + eauto.
  - intros [H|(x & [Hx|Hx] & Hxy)]; apply Hm'.
    + left. apply Hm. auto.
    + left. apply Hm. eauto.
    + eauto.
  - intros z Hz. destruct (Hi' _ Hz) as [H|H]; [|auto].
    destruct (Hi _ H); auto.
  - auto.
Qed.

Lemma extends_iff (P Q : value -> Prop) (s s' : list value) :
  (forall x, P x <-> Q x) -> extends P s s' -> extends Q s s'.
Proof.
  intros HPQ (Hm & Hi & Hd). repeat split; auto.
  - intros H. apply Hm in H. destruct H as [H|(x & Hx & Hxy)]; [auto|].
    right. exists x. split; [now apply HPQ | assumption].
  - intros [H|(x & Hx & Hxy)]; apply Hm; [auto|].
    right. exists x. split; [now apply HPQ | assumption].
  - intros z Hz. destruct (Hi _ Hz); [auto|]. right. now apply HPQ.
Qed.

(** [s.add(x)] *)
Lemma set_add_extends (s s' : list value) (x : value) :
  set_add s x = Ok s' -> extends (fun z => z = x) s s'.
Proof.
  intros H. apply set_add_Ok in H. destruct H as [Hh ->].
  destruct (set_mem x s) eqn:Hx; repeat split; auto.
  - intros [H|(z & -> & Hz)]; [assumption|].
    apply set_mem_true in Hx. destruct Hx as (w & Hw & Hwx).
    apply set_mem_true. exists w. split; [assumption|].
    eapply key_eqb_trans; eauto.
  - rewrite set_mem_app. intros H. apply orb_true_iff in H.
    destruct H as [H|H]; [auto|]. right. exists x. split; [reflexivity|].
    simpl in H. now rewrite orb_false_r in H.
  - rewrite set_mem_app. intros [H|(z & -> & Hz)]; apply orb_true_iff; [auto|].
    right. simpl. now rewrite Hz.
  - intros z Hz. apply in_app_or in Hz. destruct Hz as [Hz|[<-|[]]]; auto.
  - intros Hd. clear Hh. induction s as [|w s IH]; simpl in *.
    + auto.
    + destruct Hd as [Hw Hd]. apply orb_false_iff in Hx. destruct Hx as [Hwx Hx].
      split; [|auto].
      rewrite set_mem_app, Hw. simpl. now rewrite key_eqb_sym, Hwx.
Qed.

Lemma foldM_set_add_extends (l : list value) (s s' : list value) :
  foldM set_add s l = Ok s' -> extends (fun z => In z l) s s'.
Proof.
  revert s; induction l as [|x l IH]; simpl; intros s H.
  - injection H as <-. eapply extends_iff; [|apply extends_refl]. tauto.
  - bind_split H as s1 Hs1.
    eapply extends_iff;
      [|exact (extends_trans _ _ _ _ _ (set_add_extends _ _ _ Hs1) (IH _ H))].
    simpl. intuition.
Qed.

(** [s.update(v)] *)
Lemma set_update_extends (s s' : list value) (v : value) :
  set_update s v = Ok s' -> extends (fun x => In x (names v)) s s'.
Proof.
  unfold set_update, names. intros H. bind_split H as l Hl. rewrite Hl.
  exact (foldM_set_add_extends _ _ _ H).
Qed.

(** The inner loop of [load_string] over the signals of a message. *)
Lemma receivers_extends (signals : list Signal.t) (s s' : list value) :
  foldM (fun nodes signal => set_update nodes (Signal.receivers signal)) s signals
  = Ok s' ->
  extends (fun x => In x (flat_map (fun sig => names (Signal.receivers sig)) signals))
    s s'.
Proof.
  revert s; induction signals as [|sig l IH]; simpl; intros s H.
  - injection H as <-. eapply extends_iff; [|apply extends_refl]. tauto.
  - bind_split H as s1 Hs1.
    eapply extends_iff;
      [|exact (extends_trans _ _ _ _ _ (set_update_extends _ _ _ Hs1) (IH _ H))].
    intros x. simpl. rewrite in_app_iff. tauto.
Qed.

(** The loop of [load_string]: one message per entry, in order, and the
    node set grown by the senders and receivers of these messages. *)
Lemma load_messages_spec (bus : value) (strict : bool)
  (kvs : list (string * value)) (nodes0 : list value) (msgs0 : list Message.t)
  (nodes : list value) (msgs : list Message.t) :
  load_messages bus strict kvs nodes0 msgs0 = Ok (nodes, msgs) ->
  exists new,
    msgs = msgs0 ++ new
    /\ Forall2 (fun kv m => _load_message (snd kv) (fst kv) bus strict = Ok m)
         kvs new
    /\ extends (fun x => In x (all_names new)) nodes0 nodes.
Proof.
  unfold load_messages.
  revert nodes0 msgs0; induction kvs as [|kv kvs IH]; simpl; intros nodes0 msgs0 H.
  - injection H as <- <-. exists []. rewrite app_nil_r.
    split; [reflexivity|]. split; [constructor|].
    eapply extends_iff; [|apply extends_refl]. simpl. tauto.
  - bind_split H as st Hst. destruct st as [nodes1 msgs1].
    bind_split Hst as m Hm. bind_split Hst as n1 Hn1. bind_split Hst as n2 Hn2.
    injection Hst as <- <-.
    destruct (IH _ _ H) as (new & -> & Hall & Hext).
    exists (m :: new). rewrite <- app_assoc. split; [reflexivity|].
    split; [now constructor|].
    pose proof (extends_trans _ _ _ _ _
                  (extends_trans _ _ _ _ _
                     (set_update_extends _ _ _ Hn1) (receivers_extends _ _ _ Hn2))
                  Hext) as Hall3.
    eapply extends_iff; [|exact Hall3].
    intros x. simpl. unfold message_names. rewrite !in_app_iff. tauto.
Qed.

(* ===================================================================== *)
(** ** The document assembler *)
(* ===================================================================== *)

(** The steps of a successful [load_string]. *)
Lemma load_string_Ok (loaded : result value) (strict : bool)
  (db : InternalDatabase.t) :
  load_string loaded strict = Ok db ->
  exists odin entries bus_json bus,
    loaded = Ok odin
    /\ getitem odin "messages" = Ok (VDict entries)
    /\ getitem odin "busMetadata" = Ok bus_json
    /\ bus = match lookup "name" entries with Some v => v | None => VNone end
    /\ InternalDatabase.buses db = (if truthy bus then [bus] else [])
    /\ InternalDatabase.version db = "0"
    /\ Forall2 (fun kv m => _load_message (snd kv) (fst kv) bus strict = Ok m)
         entries (InternalDatabase.messages db)
    /\ extends (fun x => In x (all_names (InternalDatabase.messages db))) []
         (map Node.name (InternalDatabase.nodes db)).
Proof.
  unfold load_string. intros H.
  bind_split H as root Hroot. bind_split H as bus Hbus.
  bind_split H as kvs Hkvs. bind_split H as st Hst.
  destruct st as [nodes msgs]. injection H as <-. simpl.
  assert (Hroot' : (odin <- loaded ;;
                    messages_json <- getitem odin "messages" ;;
                    bus_json <- getitem odin "busMetadata" ;;
                    Ok (messages_json, bus_json)) = Ok root).
  { revert Hroot. unfold except_KeyError.
    destruct (bind loaded _) as [r|[]]; auto; discriminate. }
  bind_split Hroot' as odin Hodin. bind_split Hroot' as mj Hmj.
  bind_split Hroot' as bj Hbj. injection Hroot' as <-. simpl in *.
  destruct mj; try discriminate. injection Hkvs as ->.
  exists odin, kvs, bj, bus. repeat (split; [assumption || reflexivity|]).
  split.
  { simpl in Hbus. destruct (lookup "name" kvs); simpl in Hbus; congruence. }
  split; [reflexivity|]. split; [reflexivity|].
  destruct (load_messages_spec _ _ _ _ _ _ _ Hst) as (new & -> & Hall & Hext).
  simpl. split; [assumption|].
  rewrite map_map. simpl. now rewrite map_id.
Qed.

Lemma Forall2_In_l {A B : Type} (P : A -> B -> Prop) (l : list A) (r : list B)
  (x : A) :
  Forall2 P l r -> In x l -> exists y, In y r /\ P x y.
Proof.
  induction 1 as [|a b l r Hab _ IH]; simpl; [tauto|].
  intros [<-|Hx]; [eauto|]. destruct (IH Hx) as (y & ? & ?). eauto.
Qed.

(** A document loads only if every signal record of every message does. *)
Lemma load_string_signals (odin : value) (strict : bool) (db : InternalDatabase.t)
  (entries : list (string * value)) (mname : string) (message : value)
  (sentries : list (string * value)) (sname : string) (signal_json : value) :
  load_string (Ok odin) strict = Ok db ->
  getitem odin "messages" = Ok (VDict entries) ->
  In (mname, message) entries ->
  _get_value message "signals" (VDict []) = Ok (VDict sentries) ->
  In (sname, signal_json) sentries ->
  exists s, _load_signal signal_json sname = Ok s.
Proof.
  intros H Hm Hin Hs Hsin.
  destruct (load_string_Ok _ _ _ H)
    as (odin' & entries' & _ & bus & Ho & Hm' & _ & _ & _ & _ & Hall & _).
  injection Ho as <-. rewrite Hm in Hm'. injection Hm' as <-.
  destruct (Forall2_In_l _ _ _ _ Hall Hin) as (m & _ & Hload). simpl in Hload.
  destruct (_load_message_Ok _ _ _ _ _ Hload)
    as (_ & sj & parsed & _ & Hsj & Hparsed & _).
  rewrite Hs in Hsj. injection Hsj as <-.
  destruct (_parse_signals_Ok _ _ Hparsed) as (sentries' & Heq & Hall').
  injection Heq as <-.
  destruct (Forall2_In_l _ _ _ _ Hall' Hsin) as (s & _ & Hs'). eauto.
Qed.

Lemma set_mem_Permutation (y : value) (l l' : list value) :
  Permutation l l' -> set_mem y l = set_mem y l'.
Proof.
  induction 1 as [|x l l' _ IH|x x' l|l l' l'' _ IH _ IH']; simpl.
  - reflexivity.
  - now rewrite IH.
  - now rewrite !orb_assoc, (orb_comm (key_eqb x' y)).
  - now rewrite IH.
Qed.

Lemma extends_nil_mem (u nodes : list value) :
  extends (fun x => In x u) [] nodes ->
  forall y, set_mem y nodes = set_mem y u.
Proof.
  intros (Hm & _) y. apply eq_true_iff_eq.
  rewrite Hm, (set_mem_true y u). simpl. split.
  - intros [H|H]; [discriminate | assumption].
  - auto.
Qed.

(** One message per entry of the [messages] record, every entry, in
    order, named by the entry's key. *)
Lemma load_string_message_names (odin : value) (strict : bool)
  (db : InternalDatabase.t) (entries : list (string * value)) :
  load_string (Ok odin) strict = Ok db ->
  getitem odin "messages" = Ok (VDict entries) ->
  map Message.name (InternalDatabase.messages db) = map fst entries.
Proof.
  intros H Hm.
  destruct (load_string_Ok _ _ _ H)
    as (odin' & entries' & _ & bus & Ho & Hm' & _ & _ & _ & _ & Hall & _).
  injection Ho as <-. rewrite Hm in Hm'. injection Hm' as <-.
  clear - Hall.
  induction Hall as [|kv m ? ? Hload _ IH]; simpl; [reflexivity|].
  f_equal; [|assumption].
  now destruct (_load_message_Ok _ _ _ _ _ Hload)
    as (_ & _ & _ & _ & _ & _ & _ & _ & ? & _).
Qed.

(** C2, where the loader departs from it. With the bus name [bus0] under the
    key [name] of the [messages] record, next to one message [M1], the
    loader builds two messages: the entry [name] is not skipped, and its
    string is read as a message record, which gives a message called [name]
    with the frame id 0 and no signals. With a bus name that contains the
    name of a message field, here [my_signals], the load fails with a type
    error. *)
Theorem bus_name_entry_loaded_as_message :
  (exists db,
      load_string
        (Ok (document [("name", VStr "bus0");
                       ("M1", VDict [("message_id", VInt 1)])])) true = Ok db
      /\ map Message.name (InternalDatabase.messages db) = ["name"; "M1"]
      /\ map Message.frame_id (InternalDatabase.messages db) = [0; 1]
      /\ map Message.signals (InternalDatabase.messages db) = [[]; []]
      /\ InternalDatabase.buses db = [VStr "bus0"])
  /\ load_string
       (Ok (document [("name", VStr "my_signals");
                      ("M1", VDict [("message_id", VInt 1)])])) true
     = Raise TypeError.
Proof.
  split; [eexists; repeat split | reflexivity].
Qed.

(** C5, in the form the loader satisfies. When the document is a JSON object
    that lacks the key [messages] or the key [busMetadata], loading raises a
    [ValueError] whose message is [Expected "messages" and "busMetadata" at
    root of the Odin JSON file], so no database is produced; the exception
    of [json.loads] on malformed text passes through unchanged and is a
    different one. *)
Theorem missing_root_keys (d : list (string * value)) (strict : bool) :
  lookup "messages" d = None \/ lookup "busMetadata" d = None ->
  load_string (Ok (VDict d)) strict = Raise (ValueError (Some expected_root))
  /\ is_ok (load_string (Ok (VDict d)) strict) = false
  /\ load_string (Raise JSONDecodeError) strict = Raise JSONDecodeError
  /\ load_string (Raise JSONDecodeError) strict
     <> load_string (Ok (VDict d)) strict.
Proof.
  intros H.
  assert (E : load_string (Ok (VDict d)) strict
              = Raise (ValueError (Some expected_root))).
  { unfold load_string. simpl.
    destruct H as [H|H].
    - now rewrite H.
    - destruct (lookup "messages" d); simpl; now rewrite ?H. }
  rewrite E. repeat split. discriminate.
Qed.

Lemma missing_root_keys_witness :
  load_string (Ok (VDict [("messages", VDict [])])) true
  = Raise (ValueError (Some expected_root))
  /\ load_string (Ok (VDict [("busMetadata", VDict [])])) true
     = Raise (ValueError (Some expected_root)).
Proof.
  split.
  - apply (missing_root_keys [("messages", VDict [])] true). right. reflexivity.
  - apply (missing_root_keys [("busMetadata", VDict [])] true). left. reflexivity.
Defined.

(** The message raised for the empty object is not the quoted one, and a
    document that is a JSON array, which has neither key, raises a type
    error instead. *)
Lemma missing_root_keys_other_message :
  load_string (Ok (VDict [])) true
  <> Raise (ValueError (Some quoted_root_message))
  /\ load_string (Ok (VList [])) true = Raise TypeError.
Proof.
  split; [discriminate | reflexivity].
Qed.

(** C7, in the form the loader satisfies. In a loaded database: when the
    [messages] record has a [name] key whose value is true in a condition (a
    non-empty string), the bus sequence is that one value; when the value is
    false in a condition (the empty string) or there is no [name] key, the
    bus sequence is empty; the version is always ["0"]. *)
Theorem bus_sequence (odin : value) (strict : bool) (db : InternalDatabase.t)
  (entries : list (string * value)) :
  load_string (Ok odin) strict = Ok db ->
  getitem odin "messages" = Ok (VDict entries) ->
  (forall bus, lookup "name" entries = Some bus -> truthy bus = true ->
               InternalDatabase.buses db = [bus])
  /\ (forall bus, lookup "name" entries = Some bus -> truthy bus = false ->
                  InternalDatabase.buses db = [])
  /\ (lookup "name" entries = None -> InternalDatabase.buses db = [])
  /\ InternalDatabase.version db = "0".
Proof.
  intros H Hm.
  destruct (load_string_Ok _ _ _ H)
    as (odin' & entries' & _ & bus & Ho & Hm' & _ & Hbus & Hbuses & Hv & _).
  injection Ho as <-. rewrite Hm in Hm'. injection Hm' as <-.
  repeat split; try assumption.
  - intros b Hb Ht. rewrite Hb in Hbus. subst bus. now rewrite Ht in Hbuses.
  - intros b Hb Ht. rewrite Hb in Hbus. subst bus. now rewrite Ht in Hbuses.
  - intros Hn. rewrite Hn in Hbus. now subst bus.
Qed.

Lemma bus_sequence_witness :
  exists db db',
    load_string (Ok (document [("name", VStr "bus0")])) true = Ok db
    /\ InternalDatabase.buses db = [VStr "bus0"]
    /\ InternalDatabase.version db = "0"
    /\ load_string (Ok (document [("M1", VDict [])])) true = Ok db'
    /\ InternalDatabase.buses db' = []
    /\ InternalDatabase.version db' = "0".
Proof.
  do 2 eexists.
  split; [vm_compute; reflexivity|].
  split; [|split].
  - refine (proj1 (bus_sequence (document [("name", VStr "bus0")]) true _
                     [("name", VStr "bus0")] eq_refl eq_refl)
              (VStr "bus0") eq_refl eq_refl).
  - reflexivity.
  - split; [vm_compute; reflexivity|]. split.
    + refine (proj1 (proj2 (proj2 (bus_sequence (document [("M1", VDict [])]) true _
                                     [("M1", VDict [])] eq_refl eq_refl)))
                eq_refl).
    + reflexivity.
Defined.

(** With the empty string under the key [name], the document loads and
    the bus sequence is empty, although the [messages] record has a [name]
    key. *)
Lemma bus_sequence_empty_name :
  exists db,
    load_string (Ok (document [("name", VStr "")])) true = Ok db
    /\ lookup "name" [("name", VStr "")] = Some (VStr "")
    /\ InternalDatabase.buses db = []
    /\ InternalDatabase.buses db <> [VStr ""].
Proof.
  eexists. repeat split. discriminate.
Qed.

(** C9.  The names of the nodes of a loaded database, as a set, are the
    senders of all the messages and the receivers of all their signals:
    the same members, every node one of them, and none twice.  The set
    does not depend on the order of the senders and receivers: a document
    whose senders and receivers are those of this one in another order
    gives the same set. *)
Theorem node_set (loaded : result value) (strict : bool)
  (db : InternalDatabase.t) :
  load_string loaded strict = Ok db ->
  let nodes := map Node.name (InternalDatabase.nodes db) in
  let union := all_names (InternalDatabase.messages db) in
  (forall y, set_mem y nodes = set_mem y union)
  /\ incl nodes union
  /\ distinct nodes
  /\ (forall loaded' strict' db',
         load_string loaded' strict' = Ok db' ->
         Permutation union (all_names (InternalDatabase.messages db')) ->
         forall y, set_mem y nodes
                   = set_mem y (map Node.name (InternalDatabase.nodes db'))).
Proof.
  intros H nodes union.
  destruct (load_string_Ok _ _ _ H) as (_ & _ & _ & _ & _ & _ & _ & _ & _ & _ & _ & Hext).
  fold nodes union in Hext.
  pose proof (extends_nil_mem _ _ Hext) as Hmem.
  destruct Hext as (_ & Hin & Hd).
  repeat split.
  - exact Hmem.
  - intros z Hz. destruct (Hin z Hz) as [[]|Hu]. exact Hu.
  - apply Hd. exact I.
  - intros loaded' strict' db' H' Hperm y.
    destruct (load_string_Ok _ _ _ H') as (_ & _ & _ & _ & _ & _ & _ & _ & _ & _ & _ & Hext').
    rewrite Hmem, (extends_nil_mem _ _ Hext').
    now apply set_mem_Permutation.
Qed.

Lemma node_set_witness :
  exists db db',
    load_string
      (Ok (document
             [("M1",
               VDict [("senders", VList [VStr "A"; VStr "B"]);
                      ("signals",
                       VDict [("s", VDict [("start_position", VInt 0);
                                           ("receivers", VList [VStr "B"; VStr "C"])])])])]))
      true = Ok db
    /\ load_string
         (Ok (document
                [("M1",
                  VDict [("senders", VList [VStr "B"; VStr "A"]);
                         ("signals",
                          VDict [("s", VDict [("start_position", VInt 0);
                                              ("receivers", VList [VStr "C"; VStr "B"])])])])]))
         false = Ok db'
    /\ (forall y, set_mem y (map Node.name (InternalDatabase.nodes db))
                  = set_mem y [VStr "A"; VStr "B"; VStr "C"])
    /\ Datatypes.length (InternalDatabase.nodes db) = 3%nat
    /\ (forall y, set_mem y (map Node.name (InternalDatabase.nodes db))
                  = set_mem y (map Node.name (InternalDatabase.nodes db'))).
Proof.
  match goal with
  | |- exists db db', ?load = Ok db /\ ?load' = Ok db' /\ _ =>
      let r := eval vm_compute in load in
      let r' := eval vm_compute in load' in
      match r with
      | Ok ?v =>
          match r' with
          | Ok ?v' =>
              assert (Hdb : load = Ok v) by (vm_compute; reflexivity);
              assert (Hdb' : load' = Ok v') by (vm_compute; reflexivity);
              exists v, v'
          end
      end
  end.
  split; [exact Hdb|]. split; [exact Hdb'|].
  destruct (node_set _ _ _ Hdb) as (Hmem & _ & _ & Hperm).
  split; [|split].
  - intros y. rewrite Hmem.
    match goal with
    | |- context [all_names ?ms] =>
        let l := eval vm_compute in (all_names ms) in
        change (all_names ms) with l
    end.
    unfold set_mem. cbn [existsb].
    now destruct (key_eqb (VStr "A") y), (key_eqb (VStr "B") y),
      (key_eqb (VStr "C") y).
  - reflexivity.
  - apply (Hperm _ _ _ Hdb').
    match goal with
    | |- Permutation (all_names ?ms) (all_names ?ms') =>
        let l := eval vm_compute in (all_names ms) in
        let l' := eval vm_compute in (all_names ms') in
        change (Permutation l l')
    end.
    apply perm_trans with [VStr "B"; VStr "A"; VStr "B"; VStr "C"];
      [apply perm_swap | do 2 apply perm_skip; apply perm_swap].
Defined.

(** The minimal document of the specification: one message with the id 1
    and one little-endian signal of 8 bits at position 0 gives one message
    of one byte with one signal at start bit 0 of length 8, no node and no
    bus. *)
Example minimal_document :
  exists db m s,
    load_string
      (Ok (document
             [("M1",
               VDict [("message_id", VInt 1);
                      ("signals",
                       VDict [("s", VDict [("width", VInt 8);
                                           ("start_position", VInt 0);
                                           ("endianness", VStr "LITTLE")])])])]))
      true = Ok db
    /\ InternalDatabase.messages db = [m]
    /\ Message.frame_id m = 1
    /\ Message.length m = 1
    /\ Message.signals m = [s]
    /\ Signal.start s = Some 0
    /\ Signal.length s = 8
    /\ InternalDatabase.nodes db = []
    /\ InternalDatabase.buses db = [].
Proof.
  do 3 eexists. repeat split.
Qed.

(* ===================================================================== *)
(** ** Further properties of the loader *)
(* ===================================================================== *)

(** *** The field extractor and the normalizer *)

Lemma _start_bit_big (o : Z) :
  _start_bit (Some o) "big_endian" = Ok (Some (8 * (o / 8) + (7 - o mod 8))).
Proof. reflexivity. Qed.

(** X1.  On big-endian offsets the normalizer is its own inverse: the
    canonical start bit [r] of the offset [o] is normalized back to [o].
    It stays in the byte of [o], at the mirrored place in it, and is
    non-negative when [o] is. *)
Theorem start_bit_big_endian_involution (o r : Z) :
  _start_bit (Some o) "big_endian" = Ok (Some r) ->
  _start_bit (Some r) "big_endian" = Ok (Some o)
  /\ r / 8 = o / 8
  /\ r mod 8 = 7 - o mod 8
  /\ (0 <= o -> 0 <= r).
Proof.
  rewrite !_start_bit_big. intros H.
  assert (Hr : r = 8 * (o / 8) + (7 - o mod 8)) by congruence. subst r. clear H.
  pose proof (Z.mod_pos_bound o 8 ltac:(lia)) as Hb.
  pose proof (Z.div_mod o 8 ltac:(lia)) as Ho.
  assert (Hd : (8 * (o / 8) + (7 - o mod 8)) / 8 = o / 8).
  { symmetry. apply (Z.div_unique _ 8 (o / 8) (7 - o mod 8)); lia. }
  assert (Hm : (8 * (o / 8) + (7 - o mod 8)) mod 8 = 7 - o mod 8).
  { symmetry. apply (Z.mod_unique _ 8 (o / 8) (7 - o mod 8)); lia. }
  rewrite Hd, Hm. repeat split.
  - do 2 f_equal. lia.
  - intros Hpos. pose proof (Z.div_pos o 8 Hpos ltac:(lia)). lia.
Qed.

Lemma start_bit_big_endian_involution_witness :
  _start_bit (Some 14) "big_endian" = Ok (Some 9)
  /\ 14 / 8 = 9 / 8
  /\ 14 mod 8 = 7 - 9 mod 8
  /\ (0 <= 9 -> 0 <= 14).
Proof.
  apply (start_bit_big_endian_involution 9 14). reflexivity.
Defined.

(** X2.  [_get_value] tests membership before it subscripts, so it never
    raises [KeyError]: on an object it always returns, the bound value or
    the default; anything it returns is the default or a value bound in an
    object; and when it fails, the element is not an object and the
    exception is a [TypeError]. *)
Theorem get_value_outcomes (element : value) (key : string) (default : value) :
  (forall d, element = VDict d ->
             _get_value element key default
             = Ok (match lookup key d with Some v => v | None => default end))
  /\ (forall v, _get_value element key default = Ok v ->
                v = default
                \/ exists d, element = VDict d /\ lookup key d = Some v)
  /\ (forall e, _get_value element key default = Raise e ->
                e = TypeError /\ forall d, element <> VDict d).
Proof.
  split; [|split].
  - intros d ->. apply _get_value_dict.
  - intros v H. destruct element;
      try (rewrite _get_value_dict in H; injection H as <-;
           destruct (lookup key d) eqn:Hl; eauto);
      unfold _get_value in H; simpl in H; try discriminate.
    + destruct (substringb key s); simpl in H; [discriminate|].
      injection H as <-. auto.
    + destruct (existsb _ l); simpl in H; [discriminate|].
      injection H as <-. auto.
  - intros e H. destruct element;
      try (rewrite _get_value_dict in H; discriminate);
      unfold _get_value in H; simpl in H;
      try (injection H as <-; split; [reflexivity | discriminate]).
    + destruct (substringb key s); simpl in H; [|discriminate].
      injection H as <-; split; [reflexivity | discriminate].
    + destruct (existsb _ l); simpl in H; [|discriminate].
      injection H as <-; split; [reflexivity | discriminate].
Qed.

(** *** The signal builder *)

(** How [_load_signal] computed the plain fields of the signal. *)
Lemma _load_signal_fields (signal_json : value) (name : string) (s : Signal.t) :
  _load_signal signal_json name = Ok s ->
  (w <- _get_value signal_json "width" (VInt 1) ;; int w) = Ok (Signal.length s)
  /\ (v <- _get_value signal_json "signedness" (VStr "UNSIGNED") ;;
      Ok (eq_str v "SIGNED")) = Ok (Signal.is_signed s)
  /\ (v <- _get_value signal_json "minimum" VNone ;; int_or_None v)
     = Ok (Signal.minimum s)
  /\ (v <- _get_value signal_json "maximum" VNone ;; int_or_None v)
     = Ok (Signal.maximum s)
  /\ (v <- _get_value signal_json "scale" (VInt 1) ;; float_ v)
     = Ok (Signal.scale s)
  /\ (v <- _get_value signal_json "offset" (VInt 0) ;; float_ v)
     = Ok (Signal.offset s)
  /\ _get_value signal_json "units" VNone = Ok (Signal.unit s)
  /\ Signal.decimal s = SignalDecimal.mk (Signal.scale s) (Signal.offset s)
  /\ Signal.is_float s = false
  /\ Signal.comment s = None.
Proof.
  intros H. load_signal_cases H; muxer_case; simpl;
    repeat split; try assumption;
    match goal with
    | E : _get_value _ ?k _ = Ok _ |- bind (_get_value _ ?k _) _ = _ =>
        rewrite E; simpl; try assumption
    end;
    match goal with |- context [eq_str ?v ?c] => now destruct (eq_str v c) end.
Qed.

Lemma dict_set_not_nil {V : Type} (d : list (value * V)) (k : value) (v : V) :
  dict_set d k v <> [].
Proof.
  destruct d as [|[k' v'] d]; simpl; [discriminate|].
  destruct (key_eqb k' k); discriminate.
Qed.

Lemma invert_labels_not_nil (d : list (string * value))
  (labels0 labels : list (value * string)) :
  foldM (fun labels kv => setitem labels (snd kv) (fst kv)) labels0 d = Ok labels ->
  labels0 <> [] \/ d <> [] -> labels <> [].
Proof.
  revert labels0; induction d as [|kv d IH]; simpl; intros labels0 H Hne.
  - injection H as <-. destruct Hne; congruence.
  - bind_split H as l1 Hl1. apply (IH _ H). left.
    unfold setitem in Hl1. destruct (hashable (snd kv)); [|discriminate].
    injection Hl1 as <-. apply dict_set_not_nil.
Qed.

(** X3.  Invariants of every signal the builder returns: it carries the
    name it was built under; its byte order is one of the two tags; it is
    not a float signal and has no comment; its decimal pair mirrors its
    scale and offset; its [multiplexer_signal] is unset; it is multiplexed
    exactly when it has multiplexer ids, and then it has exactly one; and
    its [choices], when present, are never an empty mapping. *)
Theorem signal_invariants (signal_json : value) (name : string) (s : Signal.t) :
  _load_signal signal_json name = Ok s ->
  Signal.name s = name
  /\ (Signal.byte_order s = "big_endian" \/ Signal.byte_order s = "little_endian")
  /\ Signal.is_float s = false
  /\ Signal.comment s = None
  /\ SignalDecimal.scale (Signal.decimal s) = Signal.scale s
  /\ SignalDecimal.offset (Signal.decimal s) = Signal.offset s
  /\ Signal.multiplexer_signal s = None
  /\ (Signal.is_multiplexed s = true <->
      exists id, Signal.multiplexer_ids s = Some [id])
  /\ (Signal.is_multiplexed s = false <-> Signal.multiplexer_ids s = None)
  /\ Signal.choices s <> Some [].
Proof.
  intros H.
  destruct (_load_signal_name _ _ _ H) as [Hn _].
  destruct (_load_signal_start _ _ _ H) as (_ & _ & e & _ & _ & _ & Hb & _).
  destruct (_load_signal_fields _ _ _ H)
    as (_ & _ & _ & _ & _ & _ & _ & Hd & Hf & Hc).
  destruct (_load_signal_mux _ _ _ H) as (mux_id & _ & _ & _ & Hm & _ & Hms).
  destruct (_load_signal_labels _ _ _ H) as (vd & _ & Hl).
  assert (Hbo : Signal.byte_order s = "big_endian"
                \/ Signal.byte_order s = "little_endian").
  { rewrite Hb. destruct (eq_str e "BIG"); auto. }
  assert (Hmt : Signal.is_multiplexed s = true <->
                exists id, Signal.multiplexer_ids s = Some [id]).
  { destruct (is_None mux_id).
    - destruct Hm as [-> ->]. split; [discriminate | intros (? & ?); discriminate].
    - destruct Hm as (id & _ & -> & ->). split; eauto. }
  assert (Hmf : Signal.is_multiplexed s = false <-> Signal.multiplexer_ids s = None).
  { destruct (is_None mux_id).
    - destruct Hm as [-> ->]. split; auto.
    - destruct Hm as (id & _ & -> & ->). split; discriminate. }
  assert (Hch : Signal.choices s <> Some []).
  { destruct (truthy vd) eqn:Ht.
    - destruct Hl as (kvs & labels & Hi & Hfold & ->).
      intros Heq. injection Heq as ->.
      apply (invert_labels_not_nil _ _ _ Hfold); [|reflexivity].
      right. destruct vd; try discriminate. injection Hi as <-.
      destruct d; discriminate.
    - rewrite Hl. discriminate. }
  rewrite Hd. simpl.
  exact (conj Hn (conj Hbo (conj Hf (conj Hc (conj eq_refl (conj eq_refl
           (conj Hms (conj Hmt (conj Hmf Hch))))))))).
Qed.

Lemma signal_invariants_witness :
  exists s,
    _load_signal
      (VDict [("start_position", VInt 3); ("endianness", VStr "BIG");
              ("mux_id", VInt 4); ("value_description", VDict [("ON", VInt 1)])])
      "sig" = Ok s
    /\ Signal.name s = "sig"
    /\ Signal.is_multiplexed s = true
    /\ Signal.choices s <> Some [].
Proof.
  match goal with
  | |- exists s, ?load = Ok s /\ _ =>
      let r := eval vm_compute in load in
      match r with
      | Ok ?v => assert (Hs : load = Ok v) by (vm_compute; reflexivity); exists v
      end
  end.
  destruct (signal_invariants _ _ _ Hs) as (Hn & _ & _ & _ & _ & _ & _ & _ & _ & Hc).
  split; [exact Hs|]. split; [exact Hn|]. split; [reflexivity | exact Hc].
Defined.

Lemma float_of_1 : float_ (VInt 1) = Ok (S754_finite false 4503599627370496 (-52)).
Proof. vm_compute. reflexivity. Qed.

Lemma float_of_0 : float_ (VInt 0) = Ok (S754_zero false).
Proof. vm_compute. reflexivity. Qed.

Lemma int_or_None_None : int_or_None VNone = Ok None.
Proof. reflexivity. Qed.

Lemma int_or_None_int (n : Z) : int_or_None (VInt n) = Ok (Some n).
Proof. reflexivity. Qed.

(** Splits a conjunction of implications without entering them. *)
Ltac conjs := repeat match goal with |- _ /\ _ => split end.

(** Reads the fields of a built signal off an object record. *)
Ltac signal_facts H :=
  let Hn := fresh "Hname" in
  let Hr := fresh "Hrecv" in
  destruct (_load_signal_name _ _ _ H) as [Hn Hr];
  destruct (_load_signal_start _ _ _ H)
    as (position & offset & endianness & Hpos & Hoff & Hend & Hbo & Hstart);
  destruct (_load_signal_fields _ _ _ H)
    as (Hlen & Hsig & Hmin & Hmax & Hsc & Hof & Hun & Hdec & Hfl & Hco);
  destruct (_load_signal_mux _ _ _ H)
    as (mux_id & is_muxer & Hmux & Hmuxer & Hids & Hism & Hmsig);
  destruct (_load_signal_labels _ _ _ H) as (vd & Hvd & Hlab);
  rewrite _get_value_dict in Hr, Hpos, Hend, Hlen, Hsig, Hmin, Hmax, Hsc, Hof,
    Hun, Hmux, Hmuxer, Hvd;
  injection Hr as Hr; injection Hpos as Hpos; injection Hend as Hend;
  injection Hun as Hun; injection Hmux as Hmux; injection Hmuxer as Hmuxer;
  injection Hvd as Hvd;
  cbn [bind] in Hlen, Hsig, Hmin, Hmax, Hsc, Hof;
  injection Hsig as Hsig.

(** X4.  The defaults of the signal builder.  In the signal built from an
    object record, a field that the record lacks takes its default: the
    width 1, unsigned, little-endian, no minimum and no maximum, no
    receivers, the scale 1.0 and the offset 0.0, no unit, no choices, not
    multiplexed and not a multiplexer. *)
Theorem signal_defaults (d : list (string * value)) (name : string)
  (s : Signal.t) :
  _load_signal (VDict d) name = Ok s ->
  (lookup "width" d = None -> Signal.length s = 1)
  /\ (lookup "signedness" d = None -> Signal.is_signed s = false)
  /\ (lookup "endianness" d = None -> Signal.byte_order s = "little_endian")
  /\ (lookup "minimum" d = None -> Signal.minimum s = None)
  /\ (lookup "maximum" d = None -> Signal.maximum s = None)
  /\ (lookup "receivers" d = None -> Signal.receivers s = VList [])
  /\ (lookup "scale" d = None ->
      float_ (VInt 1) = Ok (Signal.scale s)
      /\ eq_True (VFloat (Signal.scale s)) = true)
  /\ (lookup "offset" d = None -> Signal.offset s = S754_zero false)
  /\ (lookup "units" d = None -> Signal.unit s = VNone)
  /\ (lookup "value_description" d = None -> Signal.choices s = None)
  /\ (lookup "mux_id" d = None ->
      Signal.multiplexer_ids s = None /\ Signal.is_multiplexed s = false)
  /\ (lookup "is_muxer" d = None -> Signal.is_multiplexer s = false).
Proof.
  intros H. signal_facts H.
  conjs; intros Hl; rewrite Hl in *.
  - simpl in Hlen. congruence.
  - now rewrite <- Hsig.
  - subst endianness. exact Hbo.
  - rewrite ?int_or_None_None, ?int_or_None_int in Hmin. congruence.
  - rewrite ?int_or_None_None, ?int_or_None_int in Hmax. congruence.
  - congruence.
  - split; [exact Hsc|].
    rewrite float_of_1 in Hsc. injection Hsc as <-. reflexivity.
  - rewrite float_of_0 in Hof. congruence.
  - congruence.
  - subst vd. exact Hlab.
  - subst mux_id. exact Hids.
  - subst is_muxer. exact Hism.
Qed.

Lemma signal_defaults_witness :
  exists s,
    _load_signal (VDict [("start_position", VInt 5)]) "sig" = Ok s
    /\ Signal.length s = 1
    /\ Signal.byte_order s = "little_endian"
    /\ Signal.receivers s = VList []
    /\ Signal.choices s = None.
Proof.
  match goal with
  | |- exists s, ?load = Ok s /\ _ =>
      let r := eval vm_compute in load in
      match r with
      | Ok ?v => assert (Hs : load = Ok v) by (vm_compute; reflexivity); exists v
      end
  end.
  destruct (signal_defaults _ _ _ Hs)
    as (Hw & _ & He & _ & _ & Hr & _ & _ & _ & Hc & _).
  split; [exact Hs|]. split; [exact (Hw eq_refl)|]. split; [exact (He eq_refl)|].
  split; [exact (Hr eq_refl) | exact (Hc eq_refl)].
Defined.

(** X5.  The fields of the signal builder.  In the signal built from an
    object record: an int width is the length; the signal is signed
    exactly when [signedness] is the string [SIGNED], and big-endian exactly
    when [endianness] is the string [BIG]; an int [start_position] is
    normalized for that byte order; int [minimum] and [maximum], a float
    [scale] and [offset], and whatever [receivers] and [units] hold are
    taken as they are. *)
Theorem signal_fields (d : list (string * value)) (name : string)
  (s : Signal.t) :
  _load_signal (VDict d) name = Ok s ->
  (forall n, lookup "width" d = Some (VInt n) -> Signal.length s = n)
  /\ (forall v, lookup "signedness" d = Some v ->
                Signal.is_signed s = eq_str v "SIGNED")
  /\ (forall v, lookup "endianness" d = Some v ->
                Signal.byte_order s
                = if eq_str v "BIG" then "big_endian" else "little_endian")
  /\ (forall o, lookup "start_position" d = Some (VInt o) ->
                _start_bit (Some o) (Signal.byte_order s) = Ok (Signal.start s))
  /\ (forall n, lookup "minimum" d = Some (VInt n) -> Signal.minimum s = Some n)
  /\ (forall n, lookup "maximum" d = Some (VInt n) -> Signal.maximum s = Some n)
  /\ (forall f, lookup "scale" d = Some (VFloat f) -> Signal.scale s = f)
  /\ (forall f, lookup "offset" d = Some (VFloat f) -> Signal.offset s = f)
  /\ (forall v, lookup "receivers" d = Some v -> Signal.receivers s = v)
  /\ (forall v, lookup "units" d = Some v -> Signal.unit s = v).
Proof.
  intros H. signal_facts H.
  conjs; intros x Hl; rewrite Hl in *.
  - simpl in Hlen. congruence.
  - now rewrite <- Hsig.
  - subst endianness. exact Hbo.
  - subst position. rewrite ?int_or_None_None, ?int_or_None_int in Hoff.
    injection Hoff as <-. exact Hstart.
  - rewrite ?int_or_None_None, ?int_or_None_int in Hmin. congruence.
  - rewrite ?int_or_None_None, ?int_or_None_int in Hmax. congruence.
  - simpl in Hsc. congruence.
  - simpl in Hof. congruence.
  - congruence.
  - congruence.
Qed.

Lemma signal_fields_witness :
  exists s,
    _load_signal
      (VDict [("width", VInt 12); ("start_position", VInt 9);
              ("endianness", VStr "BIG"); ("signedness", VStr "SIGNED");
              ("minimum", VInt (-5)); ("receivers", VList [VStr "ECU"])])
      "sig" = Ok s
    /\ Signal.length s = 12
    /\ Signal.is_signed s = true
    /\ Signal.byte_order s = "big_endian"
    /\ Signal.start s = Some 14
    /\ Signal.minimum s = Some (-5)
    /\ Signal.receivers s = VList [VStr "ECU"].
Proof.
  match goal with
  | |- exists s, ?load = Ok s /\ _ =>
      let r := eval vm_compute in load in
      match r with
      | Ok ?v => assert (Hs : load = Ok v) by (vm_compute; reflexivity); exists v
      end
  end.
  destruct (signal_fields _ _ _ Hs)
    as (Hw & Hsg & He & _ & Hm & _ & _ & _ & Hr & _).
  split; [exact Hs|]. split; [exact (Hw _ eq_refl)|].
  split; [exact (Hsg _ eq_refl)|]. split; [exact (He _ eq_refl)|].
  split; [reflexivity|]. split; [exact (Hm _ eq_refl) | exact (Hr _ eq_refl)].
Defined.

(** X6.  Null fields of the signal builder.  In an object record, a null
    [minimum], [maximum], [mux_id], [is_muxer] or [value_description] is
    read as an absent one, and a null [start_position] reaches the
    normalizer as an absent offset; a null [width] raises a type error, and
    with a null [scale] or [offset] no signal is built. *)
Theorem signal_null_fields (d : list (string * value)) (name : string) :
  (lookup "width" d = Some VNone -> _load_signal (VDict d) name = Raise TypeError)
  /\ (lookup "scale" d = Some VNone \/ lookup "offset" d = Some VNone ->
      is_ok (_load_signal (VDict d) name) = false)
  /\ (forall s,
         _load_signal (VDict d) name = Ok s ->
         (lookup "minimum" d = Some VNone -> Signal.minimum s = None)
         /\ (lookup "maximum" d = Some VNone -> Signal.maximum s = None)
         /\ (lookup "mux_id" d = Some VNone ->
             Signal.multiplexer_ids s = None /\ Signal.is_multiplexed s = false)
         /\ (lookup "is_muxer" d = Some VNone -> Signal.is_multiplexer s = false)
         /\ (lookup "value_description" d = Some VNone -> Signal.choices s = None)
         /\ (lookup "start_position" d = Some VNone ->
             _start_bit None (Signal.byte_order s) = Ok (Signal.start s))).
Proof.
  split; [|split].
  - intros Hl. unfold _load_signal. rewrite _get_value_dict, Hl. reflexivity.
  - intros Hl. destruct (_load_signal (VDict d) name) as [s|e] eqn:H; [|reflexivity].
    signal_facts H. destruct Hl as [Hl|Hl]; rewrite Hl in *; discriminate.
  - intros s H. signal_facts H.
    conjs; intros Hl; rewrite Hl in *.
    + rewrite ?int_or_None_None, ?int_or_None_int in Hmin. congruence.
    + rewrite ?int_or_None_None, ?int_or_None_int in Hmax. congruence.
    + subst mux_id. exact Hids.
    + subst is_muxer. exact Hism.
    + subst vd. exact Hlab.
    + subst position. rewrite ?int_or_None_None, ?int_or_None_int in Hoff.
    injection Hoff as <-. exact Hstart.
Qed.

Lemma invert_labels_hashable (d : list (string * value))
  (labels0 labels : list (value * string)) :
  foldM (fun labels kv => setitem labels (snd kv) (fst kv)) labels0 d = Ok labels ->
  Forall (fun kv => hashable (snd kv) = true) d.
Proof.
  revert labels0; induction d as [|kv d IH]; simpl; intros labels0 H.
  - constructor.
  - bind_split H as l1 Hl1. constructor; [|eauto].
    unfold setitem in Hl1. now destruct (hashable (snd kv)).
Qed.

(** X7.  What the signal builder refuses as [value_description].  With a
    [value_description] that is true in a condition and not an object (a
    non-empty string or list, a non-zero number, [true]), or that is an
    object holding a list or an object as a raw value, no signal is
    built. *)
Theorem value_description_rejected (d : list (string * value)) (name : string)
  (vd : value) :
  lookup "value_description" d = Some vd ->
  truthy vd = true ->
  (forall t, vd <> VDict t)
  \/ (exists t k v, vd = VDict t /\ In (k, v) t /\ hashable v = false) ->
  is_ok (_load_signal (VDict d) name) = false.
Proof.
  intros Hl Ht Hbad.
  destruct (_load_signal (VDict d) name) as [s|e] eqn:H; [|reflexivity].
  destruct (_load_signal_labels _ _ _ H) as (vd' & Hvd & Hlab).
  rewrite _get_value_dict, Hl in Hvd. injection Hvd as <-.
  rewrite Ht in Hlab. destruct Hlab as (kvs & labels & Hi & Hfold & _).
  destruct vd; try discriminate. injection Hi as <-.
  destruct Hbad as [Hbad|(t & k & v & Heq & Hin & Hh)].
  - now destruct (Hbad d0).
  - injection Heq as <-.
    pose proof (invert_labels_hashable _ _ _ Hfold) as Hall.
    rewrite Forall_forall in Hall. specialize (Hall _ Hin). simpl in Hall.
    congruence.
Qed.

Lemma value_description_rejected_witness :
  is_ok (_load_signal
           (VDict [("start_position", VInt 0);
                   ("value_description", VList [VStr "ON"])]) "sig") = false
  /\ is_ok (_load_signal
              (VDict [("start_position", VInt 0);
                      ("value_description", VDict [("ON", VList [])])]) "sig")
     = false.
Proof.
  split.
  - apply (value_description_rejected
             [("start_position", VInt 0); ("value_description", VList [VStr "ON"])]
             "sig" (VList [VStr "ON"]) eq_refl eq_refl).
    left. discriminate.
  - apply (value_description_rejected
             [("start_position", VInt 0);
              ("value_description", VDict [("ON", VList [])])]
             "sig" (VDict [("ON", VList [])]) eq_refl eq_refl).
    right. exists [("ON", VList [])], "ON", (VList []).
    split; [reflexivity|]. split; [left; reflexivity | reflexivity].
Defined.

Lemma distinct_app_head (l r : list value) (v : value) :
  distinct (l ++ v :: r) -> forall k, In k l -> key_eqb k v = false.
Proof.
  induction l as [|x l IH]; simpl; intros H k Hk; [contradiction|].
  destruct H as [Hx Hd]. destruct Hk as [<-|Hk]; [|auto].
  unfold set_mem in Hx. rewrite existsb_app in Hx. simpl in Hx.
  apply orb_false_iff in Hx. destruct Hx as [_ Hx].
  apply orb_false_iff in Hx. destruct Hx as [Hx _].
  now rewrite key_eqb_sym.
Qed.

Lemma dict_set_fresh {V : Type} (d : list (value * V)) (k : value) (v : V) :
  (forall k', In k' (map fst d) -> key_eqb k' k = false) ->
  dict_set d k v = d ++ [(k, v)].
Proof.
  induction d as [|[k' v'] d IH]; simpl; intros H; [reflexivity|].
  rewrite (H k' (or_introl eq_refl)). f_equal. apply IH. auto.
Qed.

(** With raw values that differ from one another the inversion loop only
    appends. *)
Lemma invert_labels_distinct (d : list (string * value))
  (labels0 labels : list (value * string)) :
  foldM (fun labels kv => setitem labels (snd kv) (fst kv)) labels0 d = Ok labels ->
  distinct (map fst labels0 ++ map snd d) ->
  labels = labels0 ++ map (fun kv => (snd kv, fst kv)) d.
Proof.
  revert labels0; induction d as [|[k v] d IH]; simpl; intros labels0 H Hd.
  - injection H as <-. now rewrite app_nil_r.
  - bind_split H as l1 Hl1. unfold setitem in Hl1. simpl in Hl1.
    destruct (hashable v); [|discriminate]. injection Hl1 as <-.
    rewrite (dict_set_fresh labels0 v k) in H
      by (intros k' Hk'; exact (distinct_app_head _ _ _ Hd k' Hk')).
    rewrite (IH _ H).
    + now rewrite <- app_assoc.
    + rewrite map_app. simpl. now rewrite <- app_assoc.
Qed.

Lemma dict_get_swapped (d : list (string * value)) (k : string) (v : value) :
  Forall (fun kv => hashable (snd kv) = true) d ->
  distinct (map snd d) ->
  In (k, v) d ->
  dict_get (map (fun kv => (snd kv, fst kv)) d) v = Some k.
Proof.
  induction d as [|[k0 v0] d IH]; simpl; intros Hh Hd Hin; [contradiction|].
  inversion Hh as [|? ? Hh0 Hh']; subst. destruct Hd as [Hv0 Hd].
  destruct Hin as [Heq|Hin].
  - injection Heq as -> ->. simpl in Hh0. now rewrite (key_eqb_refl _ Hh0).
  - assert (Hne : key_eqb v0 v = false).
    { destruct (key_eqb v0 v) eqn:E; [|reflexivity].
      assert (Hm : set_mem v0 (map snd d) = true).
      { apply set_mem_true. exists v. split.
        - apply in_map_iff. exists (k, v). auto.
        - now rewrite key_eqb_sym. }
      congruence. }
    rewrite Hne. auto.
Qed.

(** X8.  The inversion of an injective table.  When the raw values of a
    non-empty [value_description] table differ from one another, the
    [choices] of the built signal are the table with every pair swapped,
    in the same order, and looking up the raw value of an entry gives the
    label of that entry back. *)
Theorem choices_of_injective_table
  (signal_json : value) (name : string) (s : Signal.t)
  (d : list (string * value)) :
  _load_signal signal_json name = Ok s ->
  _get_value signal_json "value_description" VNone = Ok (VDict d) ->
  d <> [] ->
  distinct (map snd d) ->
  Signal.choices s = Some (map (fun kv => (snd kv, fst kv)) d)
  /\ forall labels k v,
       Signal.choices s = Some labels -> In (k, v) d ->
       dict_get labels v = Some k.
Proof.
  intros H Hvd Hne Hd.
  destruct (_load_signal_labels _ _ _ H) as (vd & Hvd' & Hl).
  rewrite Hvd in Hvd'. injection Hvd' as <-.
  destruct d as [|kv d]; [contradiction|]. cbn [truthy] in Hl.
  destruct Hl as (kvs & labels & Hi & Hf & Hc). injection Hi as <-.
  pose proof (invert_labels_distinct _ _ _ Hf Hd) as Heq. simpl in Heq.
  pose proof (invert_labels_hashable _ _ _ Hf) as Hh.
  rewrite Hc, Heq. split; [reflexivity|].
  intros labels' k v Hl' Hin. injection Hl' as <-.
  now apply (dict_get_swapped (kv :: d)).
Qed.

Lemma choices_of_injective_table_witness :
  exists s,
    _load_signal
      (VDict [("start_position", VInt 0);
              ("value_description",
               VDict [("OFF", VInt 0); ("ON", VInt 1); ("ERR", VStr "e")])])
      "state" = Ok s
    /\ Signal.choices s = Some [(VInt 0, "OFF"); (VInt 1, "ON"); (VStr "e", "ERR")].
Proof.
  eexists. split; [reflexivity|].
  refine (proj1 (choices_of_injective_table
                   (VDict [("start_position", VInt 0);
                           ("value_description",
                            VDict [("OFF", VInt 0); ("ON", VInt 1); ("ERR", VStr "e")])])
                   "state" _ [("OFF", VInt 0); ("ON", VInt 1); ("ERR", VStr "e")]
                   eq_refl eq_refl _ _)).
  - discriminate.
  - simpl. repeat split; reflexivity.
Defined.

(** *** Records with well-typed fields always load *)

Lemma bind_total {A B : Type} (c : result A) (k : A -> result B) :
  (exists a, c = Ok a /\ exists b, k a = Ok b) -> exists b, bind c k = Ok b.
Proof. intros (a & -> & b & Hb). now exists b. Qed.

(** One step of a run of binds that is known to succeed. *)
Ltac step_with lem :=
  apply bind_total;
  let x := fresh "x" in
  let Hx := fresh "Hx" in
  destruct lem as [x Hx]; exists x; split; [exact Hx|]; cbn beta.

Ltac step_get :=
  apply bind_total; eexists; split; [apply _get_value_dict|]; cbn beta.

Lemma get_int_ok (d : list (string * value)) (key : string) (z : Z) :
  int_or_absent (lookup key d) = true ->
  exists n, (w <- _get_value (VDict d) key (VInt z) ;; int w) = Ok n.
Proof.
  intros H. rewrite _get_value_dict. cbn [bind].
  destruct (lookup key d) as [[]|]; try discriminate; simpl; eauto.
Qed.

Lemma int_or_None_ok (o : option value) :
  int_or_absent o = true ->
  exists x, int_or_None (match o with Some v => v | None => VNone end) = Ok x.
Proof.
  destruct o as [[]|]; try discriminate; intros _;
    rewrite ?int_or_None_None, ?int_or_None_int; eauto.
Qed.

Lemma get_float_ok (d : list (string * value)) (key : string) (z : Z) :
  float_or_absent (lookup key d) = true ->
  is_ok (float_ (VInt z)) = true ->
  exists f, (s <- _get_value (VDict d) key (VInt z) ;; float_ s) = Ok f.
Proof.
  intros H Hz. rewrite _get_value_dict. cbn [bind].
  destruct (lookup key d) as [[]|]; try discriminate.
  - simpl. eauto.
  - destruct (float_ (VInt z)); [eauto | discriminate].
Qed.

Lemma invert_labels_total (t : list (string * value)) (labels0 : list (value * string)) :
  forallb (fun kv => hashable (snd kv)) t = true ->
  exists labels,
    foldM (fun labels kv => setitem labels (snd kv) (fst kv)) labels0 t = Ok labels.
Proof.
  revert labels0; induction t as [|kv t IH]; simpl; intros labels0 H; [eauto|].
  apply andb_prop in H. destruct H as [Hh Ht].
  unfold setitem at 1. rewrite Hh. simpl. auto.
Qed.

Lemma labels_ok (o : option value) :
  match o with
  | None => true
  | Some (VDict t) => forallb (fun kv => hashable (snd kv)) t
  | Some _ => false
  end = true ->
  exists r : option (list (value * string)),
    (if truthy (match o with Some v => v | None => VNone end) then
       kvs <- items (match o with Some v => v | None => VNone end) ;;
       labels <- foldM (fun labels kv => setitem labels (snd kv) (fst kv)) [] kvs ;;
       Ok (Some labels)
     else Ok None) = Ok r.
Proof.
  destruct o as [[]|]; try discriminate; intros H; [|simpl; eauto].
  destruct d as [|kv t]; [simpl; eauto|].
  cbn [truthy items bind].
  destruct (invert_labels_total (kv :: t) [] H) as [labels ->]. simpl. eauto.
Qed.

(** A well-typed signal record is always built. *)
Lemma _load_signal_total (d : list (string * value)) (name : string) :
  well_typed_signal d = true -> exists s, _load_signal (VDict d) name = Ok s.
Proof.
  unfold well_typed_signal. intros H.
  repeat (apply andb_prop in H; let H' := fresh "Hf" in destruct H as [H H']).
  unfold _load_signal. cbv zeta.
  step_with (get_int_ok d "width" 1 Hf6).
  step_get.
  destruct (lookup "start_position" d) as [[]|]; try discriminate.
  rewrite int_or_None_int. cbn [bind].
  step_get. step_get.
  step_get. step_with (int_or_None_ok _ Hf5).
  step_get. step_with (int_or_None_ok _ Hf4).
  step_get.
  step_with (get_float_ok d "scale" 1 Hf2 eq_refl).
  step_get.
  step_with (get_float_ok d "offset" 0 Hf1 eq_refl).
  step_get.
  step_with (labels_ok _ Hf).
  apply bind_total.
  match goal with
  | |- exists a, _start_bit _ (if ?c then _ else _) = _ /\ _ =>
      destruct c; eexists; (split; [reflexivity|])
  end;
    (step_get;
     destruct (lookup "mux_id" d) as [[]|]; try discriminate; cbn [bind is_None negb int];
     step_get; eauto).
Qed.

Lemma names_or_absent_is_names (o : option value) :
  names_or_absent o = true ->
  is_names (match o with Some v => v | None => VList [] end) = true.
Proof. destruct o as [[]|]; simpl; auto. Qed.

(** The signal built from a well-typed record has a start bit and names
    as receivers. *)
Lemma well_typed_signal_placed (d : list (string * value)) (name : string)
  (s : Signal.t) :
  well_typed_signal d = true -> _load_signal (VDict d) name = Ok s -> placed s.
Proof.
  unfold well_typed_signal. intros W H.
  repeat (apply andb_prop in W; let W' := fresh "Wf" in destruct W as [W W']).
  signal_facts H. split.
  - destruct (lookup "start_position" d) as [[]|]; try discriminate.
    subst position. rewrite int_or_None_int in Hoff. injection Hoff as <-.
    rewrite Hbo in Hstart.
    destruct (eq_str endianness "BIG"); rewrite ?_start_bit_big in Hstart;
      [|simpl in Hstart]; injection Hstart as <-; eauto.
  - rewrite <- Hrecv. now apply names_or_absent_is_names.
Qed.

Lemma mapM_total {A B : Type} (f : A -> result B) (l : list A) :
  Forall (fun x => exists y, f x = Ok y) l -> exists r, mapM f l = Ok r.
Proof.
  induction 1 as [|x l [y Hy] _ [r Hr]]; simpl; [eauto|].
  rewrite Hy, Hr. simpl. eauto.
Qed.

Lemma well_typed_signals_Forall (sigs : list (string * value)) :
  forallb (fun kv => match snd kv with
                     | VDict sd => well_typed_signal sd
                     | _ => false
                     end) sigs = true ->
  Forall (fun kv => exists sd, snd kv = VDict sd /\ well_typed_signal sd = true) sigs.
Proof.
  rewrite forallb_forall, Forall_forall. intros H kv Hin.
  specialize (H kv Hin). destruct (snd kv); try discriminate. eauto.
Qed.

Lemma _parse_signals_total (sigs : list (string * value)) :
  Forall (fun kv => exists sd, snd kv = VDict sd /\ well_typed_signal sd = true) sigs ->
  exists parsed,
    _parse_signals (VDict sigs) = Ok parsed /\ Forall placed parsed.
Proof.
  intros W.
  assert (Hall : Forall (fun kv => exists s, _load_signal (snd kv) (fst kv) = Ok s) sigs).
  { eapply Forall_impl; [|exact W]. intros kv (sd & -> & Hsd).
    now apply _load_signal_total. }
  destruct (mapM_total _ _ Hall) as [parsed Hp].
  exists parsed. split; [exact Hp|].
  apply mapM_Forall2 in Hp. clear Hall.
  induction Hp as [|kv s ? ? Hs _ IH]; [constructor|].
  inversion W as [|? ? (sd & Hsd & Hw) W']; subst.
  constructor; [|auto]. rewrite Hsd in Hs. eapply well_typed_signal_placed; eauto.
Qed.

Lemma assign_multiplexer_placed (mx : option string) (l : list Signal.t) :
  Forall placed l -> Forall placed (assign_multiplexer mx l).
Proof.
  intros H. unfold assign_multiplexer. destruct mx as [m|]; [|assumption].
  destruct (negb (m =? "")%string); [|assumption].
  induction H as [|s l Hs _ IH]; simpl; constructor; auto.
  destruct (has_multiplexer_ids s); auto.
Qed.

Section SortingTotal.
Context {A : Type}.

Lemma insert_total (k : Z) (x : A) (l : list (option Z * A)) :
  Forall (fun p => exists a, fst p = Some a) l ->
  exists r, insert (Some k) x l = Ok r
            /\ Forall (fun p => exists a, fst p = Some a) r.
Proof.
  induction 1 as [|[k' y] l [a Ha] Hl [r [Hr Hall]]]; simpl.
  - eexists. split; [reflexivity|]. constructor; simpl; eauto.
  - simpl in Ha. subst k'. simpl. destruct (a <? k).
    + rewrite Hr. simpl. eexists. split; [reflexivity|].
      constructor; simpl; eauto.
    + eexists. split; [reflexivity|].
      constructor; [simpl; eauto|]. constructor; simpl; eauto.
Qed.

Lemma sort_keyed_total (l : list (option Z * A)) :
  Forall (fun p => exists a, fst p = Some a) l ->
  exists r, sort_keyed l = Ok r
            /\ Forall (fun p => exists a, fst p = Some a) r.
Proof.
  induction 1 as [|[k x] l [a Ha] Hl [r [Hr Hall]]]; simpl.
  - eexists. split; [reflexivity | constructor].
  - simpl in Ha. subst k. rewrite Hr. simpl. now apply insert_total.
Qed.

End SortingTotal.

Lemma mapM_start_bit (signals : list Signal.t) :
  mapM (fun x => k <- start_bit x ;; Ok (k, x)) signals
  = Ok (map (fun s => (Signal.start s, s)) signals).
Proof.
  induction signals as [|s l IH]; [reflexivity|]. cbn [mapM]. now rewrite IH.
Qed.

(** The signal with the greatest start bit is found when every signal has
    a start bit. *)
Lemma sorted_last_total (signals : list Signal.t) :
  signals <> [] -> Forall placed signals ->
  exists z, (l <- sorted signals start_bit ;; last_item l) = Ok z.
Proof.
  intros Hne Hp. unfold sorted. rewrite mapM_start_bit. cbn [bind].
  assert (Hk : Forall (fun p : option Z * Signal.t => exists a, fst p = Some a)
                 (map (fun s => (Signal.start s, s)) signals)).
  { apply Forall_forall. intros p Hin. apply in_map_iff in Hin.
    destruct Hin as (s & <- & Hs). rewrite Forall_forall in Hp.
    destruct (Hp s Hs) as [[o Ho] _]. simpl. eauto. }
  destruct (sort_keyed_total _ Hk) as (r & Hr & _). rewrite Hr. cbn [bind].
  destruct (sort_keyed_spec _ _ Hr) as [_ Hin].
  unfold last_item. destruct (rev (map snd r)) as [|z t] eqn:Hrev; [|eauto].
  exfalso. apply (f_equal (@rev _)) in Hrev. rewrite rev_involutive in Hrev.
  simpl in Hrev. apply map_eq_nil in Hrev. subst r.
  destruct signals as [|s l]; [congruence|].
  apply (proj2 (Hin (Signal.start s, s))). simpl. auto.
Qed.

(** A well-typed message record is always built. *)
Lemma _load_message_total (d : list (string * value)) (name : string)
  (bus : value) (strict : bool) :
  well_typed_message d = true ->
  exists m, _load_message (VDict d) name bus strict = Ok m.
Proof.
  unfold well_typed_message. intros W.
  repeat (apply andb_prop in W; let W' := fresh "Wf" in destruct W as [W W']).
  unfold _load_message. cbv zeta.
  step_with (get_int_ok d "message_id" 0 W).
  step_get. step_get. step_with (int_or_None_ok _ Wf2).
  step_get. step_get.
  assert (Hsig : exists parsed,
             (s <- _get_value (VDict d) "signals" (VDict []) ;; _parse_signals s)
             = Ok parsed /\ Forall placed parsed).
  { rewrite _get_value_dict. cbn [bind].
    destruct (lookup "signals" d) as [[]|]; try discriminate.
    - apply _parse_signals_total. now apply well_typed_signals_Forall.
    - exists []. split; [reflexivity | constructor]. }
  destruct Hsig as (parsed & Hparsed & Hplaced).
  apply bind_total. exists parsed. split; [exact Hparsed|]. cbn beta.
  apply bind_total.
  pose proof (assign_multiplexer_placed (find_multiplexer parsed) _ Hplaced) as Ha.
  assert (Hauto : exists n,
             match assign_multiplexer (find_multiplexer parsed) parsed with
             | [] => Ok 0
             | _ :: _ =>
                 last_signal <- (l <- sorted
                                        (assign_multiplexer (find_multiplexer parsed) parsed)
                                        start_bit ;; last_item l) ;;
                 k <- start_bit last_signal ;;
                 n <- add k (Signal.length last_signal) ;;
                 Ok ((n + 7) / 8)
             end = Ok n).
  { destruct (assign_multiplexer (find_multiplexer parsed) parsed) as [|s0 l0] eqn:Hsigs;
      [eauto|].
    destruct (sorted_last_total (s0 :: l0) ltac:(discriminate) Ha) as [z Hz].
    rewrite Hz. cbn [bind]. unfold start_bit. cbn [bind].
    destruct (sorted_last _ _ Hz) as [Hin _].
    rewrite Forall_forall in Ha. destruct (Ha z Hin) as [[o Ho] _].
    rewrite Ho. simpl. eauto. }
  destruct Hauto as [n Hn].
  destruct (lookup "length_bytes" d) as [[]|]; try discriminate.
  - eexists. split; [reflexivity|]. eauto.
  - apply String.eqb_eq in Wf1. subst s. cbn [eq_str String.eqb].
    exists n. split; [|eauto].
    change (eq_str (VStr "auto") "auto") with true. exact Hn.
  - exists n. split; [|eauto].
    change (eq_str (VStr "auto") "auto") with true. exact Hn.
Qed.

(** The message built from a well-typed record has names as senders and
    signals that have a start bit and names as receivers. *)
Lemma well_typed_message_built (d : list (string * value)) (name : string)
  (bus : value) (strict : bool) (m : Message.t) :
  well_typed_message d = true ->
  _load_message (VDict d) name bus strict = Ok m ->
  is_names (Message.senders m) = true /\ Forall placed (Message.signals m).
Proof.
  unfold well_typed_message. intros W H.
  repeat (apply andb_prop in W; let W' := fresh "Wf" in destruct W as [W W']).
  destruct (_load_message_Ok _ _ _ _ _ H)
    as (raw & sj & parsed & _ & Hsj & Hparsed & Hsig & Hsend & _).
  rewrite _get_value_dict in Hsj, Hsend. injection Hsend as Hsend.
  injection Hsj as Hsj. split.
  - rewrite <- Hsend. now apply names_or_absent_is_names.
  - rewrite Hsig. apply assign_multiplexer_placed.
    destruct (lookup "signals" d) as [[]|]; try discriminate; subst sj.
    + destruct (_parse_signals_total _ (well_typed_signals_Forall _ Wf))
        as (parsed' & Hp' & Hplaced).
      congruence.
    + injection Hparsed as <-. constructor.
Qed.

Lemma foldM_set_add_total (l : list value) (s : list value) :
  forallb hashable l = true -> exists s', foldM set_add s l = Ok s'.
Proof.
  revert s; induction l as [|x l IH]; simpl; intros s H; [eauto|].
  apply andb_prop in H. destruct H as [Hx Hl].
  unfold set_add at 1. rewrite Hx. simpl. auto.
Qed.

Lemma set_update_total (s : list value) (v : value) :
  is_names v = true -> exists s', set_update s v = Ok s'.
Proof.
  destruct v; try discriminate. simpl. intros H.
  unfold set_update. simpl. now apply foldM_set_add_total.
Qed.

Lemma receivers_total (signals : list Signal.t) (s : list value) :
  Forall placed signals ->
  exists s',
    foldM (fun nodes signal => set_update nodes (Signal.receivers signal)) s signals
    = Ok s'.
Proof.
  intros H. revert s. induction H as [|sig l [_ Hr] _ IH]; simpl; intros s; [eauto|].
  destruct (set_update_total s _ Hr) as [s1 ->]. simpl. auto.
Qed.

Lemma load_messages_total (bus : value) (strict : bool)
  (entries : list (string * value)) (nodes : list value) (msgs : list Message.t) :
  forallb (fun kv => match snd kv with
                     | VDict md => well_typed_message md
                     | _ => false
                     end) entries = true ->
  exists st, load_messages bus strict entries nodes msgs = Ok st.
Proof.
  unfold load_messages.
  revert nodes msgs; induction entries as [|[k v] entries IH]; simpl;
    intros nodes msgs W; [eauto|].
  apply andb_prop in W. destruct W as [Wm Wl].
  destruct v; try discriminate.
  destruct (_load_message_total d k bus strict Wm) as [m Hm].
  destruct (well_typed_message_built _ _ _ _ _ Wm Hm) as [Hs Hp].
  rewrite Hm. cbn [bind].
  destruct (set_update_total nodes _ Hs) as [n1 ->]. cbn [bind].
  destruct (receivers_total _ n1 Hp) as [n2 ->]. cbn [bind].
  auto.
Qed.

(** A well-typed document is always loaded. *)
Lemma load_string_total (root : list (string * value)) (strict : bool) :
  well_typed_document root = true ->
  exists db, load_string (Ok (VDict root)) strict = Ok db.
Proof.
  unfold well_typed_document. intros W.
  destruct (lookup "messages" root) as [[]|] eqn:Hm; try discriminate.
  destruct (lookup "busMetadata" root) as [b|] eqn:Hb; try discriminate.
  unfold load_string. cbn [bind getitem]. rewrite Hm, Hb.
  cbn [bind except_KeyError fst contains].
  assert (Hbus : exists bus,
             (if match lookup "name" d with Some _ => true | None => false end
              then getitem (VDict d) "name" else Ok VNone) = Ok bus).
  { simpl. destruct (lookup "name" d); eauto. }
  destruct Hbus as [bus ->]. cbn [bind items].
  destruct (load_messages_total bus strict d [] [] W) as [[nodes msgs] ->].
  cbn [bind]. eauto.
Qed.

(** X9.  A signal record whose fields have the types of the format is
    always built: the builder returns a signal that carries the name it
    was given, has a start bit and has its list of names as receivers. *)
Theorem well_typed_signal_loads (d : list (string * value)) (name : string) :
  well_typed_signal d = true ->
  exists s,
    _load_signal (VDict d) name = Ok s
    /\ Signal.name s = name
    /\ (exists o, Signal.start s = Some o)
    /\ is_names (Signal.receivers s) = true.
Proof.
  intros W. destruct (_load_signal_total d name W) as [s H].
  destruct (well_typed_signal_placed _ _ _ W H) as [Hs Hr].
  destruct (_load_signal_name _ _ _ H) as [Hn _]. eauto.
Qed.

Lemma well_typed_signal_loads_witness :
  exists s,
    _load_signal
      (VDict [("width", VInt 8); ("start_position", VInt 16);
              ("endianness", VStr "BIG"); ("scale", VFloat (S754_zero false));
              ("receivers", VList [VStr "ECU"]);
              ("value_description", VDict [("OFF", VInt 0)])])
      "speed" = Ok s
    /\ Signal.name s = "speed"
    /\ (exists o, Signal.start s = Some o)
    /\ is_names (Signal.receivers s) = true.
Proof.
  apply (well_typed_signal_loads
           [("width", VInt 8); ("start_position", VInt 16);
            ("endianness", VStr "BIG"); ("scale", VFloat (S754_zero false));
            ("receivers", VList [VStr "ECU"]);
            ("value_description", VDict [("OFF", VInt 0)])] "speed").
  reflexivity.
Defined.

(** X10.  A message record whose fields have the types of the format is
    always built, also when its length has to be inferred: the builder
    returns a message that carries the name, the bus name and the flag it
    was given, whose senders are names and whose signals all have a start
    bit. *)
Theorem well_typed_message_loads (d : list (string * value)) (name : string)
  (bus : value) (strict : bool) :
  well_typed_message d = true ->
  exists m,
    _load_message (VDict d) name bus strict = Ok m
    /\ Message.name m = name
    /\ Message.bus_name m = bus
    /\ is_names (Message.senders m) = true
    /\ Forall placed (Message.signals m).
Proof.
  intros W. destruct (_load_message_total d name bus strict W) as [m H].
  destruct (well_typed_message_built _ _ _ _ _ W H) as [Hs Hp].
  destruct (_load_message_Ok _ _ _ _ _ H)
    as (_ & _ & _ & _ & _ & _ & _ & _ & Hn & Hb & _).
  eauto 6.
Qed.

Lemma well_typed_message_loads_witness :
  exists m,
    _load_message
      (VDict [("message_id", VInt 256); ("senders", VList [VStr "ECU"]);
              ("signals",
               VDict [("a", VDict [("start_position", VInt 0); ("width", VInt 4)]);
                      ("b", VDict [("start_position", VInt 12); ("width", VInt 4)])])])
      "M" (VStr "bus0") false = Ok m
    /\ Message.name m = "M"
    /\ Message.bus_name m = VStr "bus0"
    /\ is_names (Message.senders m) = true
    /\ Forall placed (Message.signals m).
Proof.
  apply (well_typed_message_loads
           [("message_id", VInt 256); ("senders", VList [VStr "ECU"]);
            ("signals",
             VDict [("a", VDict [("start_position", VInt 0); ("width", VInt 4)]);
                    ("b", VDict [("start_position", VInt 12); ("width", VInt 4)])])]
           "M" (VStr "bus0") false).
  reflexivity.
Defined.

(** X11.  A document whose root has the [messages] object and a
    [busMetadata] entry, all entries of [messages] being well-typed message
    records, is always loaded, and the database has one message per entry,
    named by the entry's key, in the order of the entries. *)
Theorem well_typed_document_loads (root entries : list (string * value))
  (strict : bool) :
  well_typed_document root = true ->
  lookup "messages" root = Some (VDict entries) ->
  exists db,
    load_string (Ok (VDict root)) strict = Ok db
    /\ map Message.name (InternalDatabase.messages db) = map fst entries.
Proof.
  intros W Hm. destruct (load_string_total root strict W) as [db H].
  exists db. split; [exact H|].
  apply (load_string_message_names (VDict root) strict db entries H).
  simpl. now rewrite Hm.
Qed.

Lemma well_typed_document_loads_witness :
  exists db,
    load_string
      (Ok (VDict
             [("busMetadata", VDict []);
              ("messages",
               VDict [("M1", VDict [("message_id", VInt 1)]);
                      ("M2",
                       VDict [("length_bytes", VStr "auto");
                              ("signals",
                               VDict [("s", VDict [("start_position", VInt 3)])])])])]))
      true = Ok db
    /\ map Message.name (InternalDatabase.messages db) = ["M1"; "M2"].
Proof.
  apply (well_typed_document_loads
           [("busMetadata", VDict []);
            ("messages",
             VDict [("M1", VDict [("message_id", VInt 1)]);
                    ("M2",
                     VDict [("length_bytes", VStr "auto");
                            ("signals",
                             VDict [("s", VDict [("start_position", VInt 3)])])])])]
           [("M1", VDict [("message_id", VInt 1)]);
            ("M2",
             VDict [("length_bytes", VStr "auto");
                    ("signals",
                     VDict [("s", VDict [("start_position", VInt 3)])])])]
           true); reflexivity.
Defined.

(** *** The message builder and the document assembler, further *)

(** X12.  The signals of a built message follow the entries of its
    [signals] field, which is an object: one signal per entry, in the order
    of the entries, each named by its key and equal to what the signal
    builder returns for the entry, up to the [multiplexer_signal] that the
    assignment loop may have set. *)
Theorem signals_follow_entries
  (message : value) (name : string) (bus : value) (strict : bool)
  (m : Message.t) (signals_json : value) :
  _load_message message name bus strict = Ok m ->
  _get_value message "signals" (VDict []) = Ok signals_json ->
  exists entries,
    signals_json = VDict entries
    /\ map Signal.name (Message.signals m) = map fst entries
    /\ Forall2
         (fun kv s =>
            exists s0, _load_signal (snd kv) (fst kv) = Ok s0
                       /\ (s = s0
                           \/ exists mx, s = Signal.set_multiplexer_signal s0 mx))
         entries (Message.signals m).
Proof.
  intros H Hsj.
  destruct (_load_message_Ok _ _ _ _ _ H)
    as (_ & sj & parsed & _ & Hsj' & Hparsed & Hsig & _).
  rewrite Hsj in Hsj'. injection Hsj' as <-.
  destruct (_parse_signals_Ok _ _ Hparsed) as (entries & -> & Hall).
  exists entries. split; [reflexivity|].
  assert (HF : Forall2
                 (fun kv s =>
                    exists s0, _load_signal (snd kv) (fst kv) = Ok s0
                               /\ (s = s0
                                   \/ exists mx, s = Signal.set_multiplexer_signal s0 mx))
                 entries (Message.signals m)).
  { assert (Hid : Forall2
                     (fun kv s =>
                        exists s0, _load_signal (snd kv) (fst kv) = Ok s0
                                   /\ (s = s0
                                       \/ exists mx,
                                            s = Signal.set_multiplexer_signal s0 mx))
                     entries parsed).
    { eapply Forall2_impl; [|exact Hall]. intros kv s Hs. exists s. auto. }
    rewrite Hsig. unfold assign_multiplexer.
    destruct (find_multiplexer parsed) as [mx|]; [|exact Hid].
    destruct (negb (mx =? "")%string); [|exact Hid].
    clear - Hall. induction Hall as [|kv s ? ? Hs _ IH]; simpl; constructor; auto.
    exists s. split; [assumption|].
    destruct (has_multiplexer_ids s); eauto. }
  split; [|exact HF].
  clear - HF. induction HF as [|kv s ? ? (s0 & Hs0 & Hs) _ IH]; simpl; [reflexivity|].
  f_equal; [|assumption].
  destruct (_load_signal_name _ _ _ Hs0) as [Hn _].
  destruct Hs as [->|(mx & ->)]; exact Hn.
Qed.

Lemma signals_follow_entries_witness :
  exists m,
    _load_message
      (VDict [("signals",
               VDict [("M", VDict [("start_position", VInt 0); ("is_muxer", VBool true)]);
                      ("x", VDict [("start_position", VInt 8); ("mux_id", VInt 1)])])])
      "msg" VNone true = Ok m
    /\ map Signal.name (Message.signals m) = ["M"; "x"].
Proof.
  match goal with
  | |- exists m, ?load = Ok m /\ _ =>
      let r := eval vm_compute in load in
      match r with
      | Ok ?v => assert (Hm : load = Ok v) by (vm_compute; reflexivity); exists v
      end
  end.
  split; [exact Hm|].
  destruct (signals_follow_entries _ _ _ _ _ _ Hm eq_refl) as (entries & He & Hn & _).
  injection He as <-. exact Hn.
Defined.

(** The signal that decides an inferred length. *)
Lemma auto_length_Ok (message : value) (name : string) (bus : value)
  (strict : bool) (m : Message.t) (raw : value) :
  _load_message message name bus strict = Ok m ->
  _get_value message "length_bytes" (VStr "auto") = Ok raw ->
  eq_str raw "auto" = true ->
  Message.signals m <> [] ->
  exists z b,
    In z (Message.signals m)
    /\ Signal.start z = Some b
    /\ (forall sig, In sig (Message.signals m) ->
                    exists o, Signal.start sig = Some o /\ o <= b)
    /\ Message.length m = (b + Signal.length z + 7) / 8.
Proof.
  intros H Hraw Hauto Hne.
  destruct (_load_message_Ok _ _ _ _ _ H)
    as (raw' & _ & _ & Hraw' & _ & _ & _ & _ & _ & _ & Hlen).
  rewrite Hraw in Hraw'. injection Hraw' as <-. rewrite Hauto in Hlen.
  destruct (Message.signals m) as [|s0 l0] eqn:Hsig; [contradiction|].
  rewrite <- Hsig in *.
  bind_split Hlen as z Hz. bind_split Hlen as k Hk. bind_split Hlen as n Hn.
  injection Hlen as Hlen.
  destruct (sorted_last _ _ Hz) as [Hin Hmax].
  unfold start_bit in Hk. injection Hk as <-.
  destruct (Signal.start z) as [b|] eqn:Hb; [|discriminate].
  injection Hn as <-.
  exists z, b. repeat split; auto.
  intros sig Hsig'. destruct (Hmax _ Hsig') as [->|(a & b' & Ha & Hb' & Hab)].
  - exists b. split; [assumption | lia].
  - exists a. split; [assumption|]. congruence.
Qed.

(** X13.  An inferred length reaches every start bit.  When the length of
    a message is inferred and every signal is at least one bit long, the
    start bit of every signal lies below the end of the frame,
    [8 * length]; the frame need not hold the whole of every signal, since
    only the signal with the greatest start bit is measured. *)
Theorem inferred_length_reaches_start_bits
  (message : value) (name : string) (bus : value) (strict : bool)
  (m : Message.t) (raw : value) :
  _load_message message name bus strict = Ok m ->
  _get_value message "length_bytes" (VStr "auto") = Ok raw ->
  eq_str raw "auto" = true ->
  Forall (fun s => 1 <= Signal.length s) (Message.signals m) ->
  Forall (fun s => exists o, Signal.start s = Some o /\ o < 8 * Message.length m)
    (Message.signals m).
Proof.
  intros H Hraw Hauto Hlen.
  destruct (Message.signals m) as [|s0 l0] eqn:Hsig; [constructor|].
  rewrite <- Hsig in *.
  destruct (auto_length_Ok _ _ _ _ _ _ H Hraw Hauto ltac:(rewrite Hsig; discriminate))
    as (z & b & Hz & Hb & Hmax & ->).
  rewrite Forall_forall in Hlen. specialize (Hlen z Hz).
  apply Forall_forall. intros sig Hin.
  destruct (Hmax sig Hin) as (o & Ho & Hob). exists o. split; [assumption|].
  pose proof (Z.div_mod (b + Signal.length z + 7) 8 ltac:(lia)).
  pose proof (Z.mod_pos_bound (b + Signal.length z + 7) 8 ltac:(lia)).
  lia.
Qed.

Lemma inferred_length_reaches_start_bits_witness :
  exists m a b,
    _load_message
      (VDict [("signals",
               VDict [("a", VDict [("start_position", VInt 0); ("width", VInt 64)]);
                      ("b", VDict [("start_position", VInt 8); ("width", VInt 1)])])])
      "msg" VNone true = Ok m
    /\ Message.signals m = [a; b]
    /\ Message.length m = 2
    /\ Signal.start a = Some 0 /\ Signal.length a = 64
    /\ Forall (fun s => exists o, Signal.start s = Some o /\ o < 8 * Message.length m)
         (Message.signals m).
Proof.
  match goal with
  | |- exists m a b, ?load = Ok m /\ _ =>
      let r := eval vm_compute in load in
      match r with
      | Ok ?v => assert (Hm : load = Ok v) by (vm_compute; reflexivity); exists v
      end
  end.
  do 2 eexists. split; [exact Hm|]. split; [reflexivity|].
  repeat (split; [reflexivity|]).
  apply (inferred_length_reaches_start_bits _ _ _ _ _ (VStr "auto") Hm eq_refl eq_refl).
  repeat constructor; simpl; lia.
Defined.

(** X14.  The message builder on a string.  Given a string instead of a
    record, every field test is a substring test: when the string
    contains the name of one of the six message fields the builder raises
    a type error, and otherwise it returns the message of all defaults,
    with the frame id 0, the length 0, no sender and no signal. *)
Theorem message_from_string (text : string) (name : string) (bus : value)
  (strict : bool) :
  _load_message (VStr text) name bus strict
  = if existsb (fun key => substringb key text) message_fields
    then Raise TypeError
    else Ok (Message.mk 0 false name 0 (VList []) VNone None [] None bus strict).
Proof.
  unfold _load_message, _get_value, message_fields. cbn [contains bind existsb].
  destruct (substringb "message_id" text); [reflexivity|]. cbn [bind int orb].
  destruct (substringb "length_bytes" text); [reflexivity|]. cbn [bind orb].
  destruct (substringb "cycle_time" text); [reflexivity|]. cbn [bind orb].
  rewrite int_or_None_None. cbn [bind].
  destruct (substringb "senders" text); [reflexivity|]. cbn [bind orb].
  destruct (substringb "send_type" text); [reflexivity|]. cbn [bind orb].
  destruct (substringb "signals" text); reflexivity.
Qed.

(** What [_load_message] passes on unchanged. *)
Lemma _load_message_consts (message : value) (name : string) (bus : value)
  (strict : bool) (m : Message.t) :
  _load_message message name bus strict = Ok m ->
  Message.name m = name
  /\ Message.bus_name m = bus
  /\ Message.strict m = strict
  /\ Message.is_extended_frame m = false
  /\ Message.comment m = None.
Proof.
  unfold _load_message. intros H. binds_inv H. injection H as <-. simpl. auto.
Qed.

(** X15.  How the assembler uses the message builder.  In a loaded
    database the messages are, entry by entry and in order, what the
    message builder returns for the entries of the [messages] object with
    one and the same bus name, the value under the key [name] or [None],
    and with the caller's [strict] flag; no message is an extended frame or
    has a comment; and the bus sequence holds at most one bus, that bus
    name. *)
Theorem messages_built_per_entry (odin : value) (strict : bool)
  (db : InternalDatabase.t) (entries : list (string * value)) :
  load_string (Ok odin) strict = Ok db ->
  getitem odin "messages" = Ok (VDict entries) ->
  let bus := match lookup "name" entries with Some v => v | None => VNone end in
  Forall2
    (fun kv m =>
       _load_message (snd kv) (fst kv) bus strict = Ok m
       /\ Message.bus_name m = bus
       /\ Message.strict m = strict
       /\ Message.is_extended_frame m = false
       /\ Message.comment m = None)
    entries (InternalDatabase.messages db)
  /\ (Datatypes.length (InternalDatabase.buses db) <= 1)%nat
  /\ (forall b, In b (InternalDatabase.buses db) -> b = bus).
Proof.
  intros H Hm bus.
  destruct (load_string_Ok _ _ _ H)
    as (odin' & entries' & _ & bus' & Ho & Hm' & _ & Hbus & Hbuses & _ & Hall & _).
  injection Ho as <-. rewrite Hm in Hm'. injection Hm' as <-.
  fold bus in Hbus. subst bus'. split; [|split].
  - eapply Forall2_impl; [|exact Hall]. intros kv m Hl.
    destruct (_load_message_consts _ _ _ _ _ Hl) as (_ & ? & ? & ? & ?). auto.
  - rewrite Hbuses. destruct (truthy bus); simpl; lia.
  - intros b. rewrite Hbuses. destruct (truthy bus); simpl; [|tauto].
    intros [<-|[]]. reflexivity.
Qed.

Lemma messages_built_per_entry_witness :
  exists db,
    load_string
      (Ok (document [("M1", VDict [("message_id", VInt 1)]);
                     ("name", VStr "bus0");
                     ("M2", VDict [("message_id", VInt 2)])])) true = Ok db
    /\ map Message.bus_name (InternalDatabase.messages db)
       = [VStr "bus0"; VStr "bus0"; VStr "bus0"]
    /\ (forall b, In b (InternalDatabase.buses db) -> b = VStr "bus0").
Proof.
  match goal with
  | |- exists db, ?load = Ok db /\ _ =>
      let r := eval vm_compute in load in
      match r with
      | Ok ?v => assert (Hdb : load = Ok v) by (vm_compute; reflexivity); exists v
      end
  end.
  split; [exact Hdb|]. split; [reflexivity|].
  exact (proj2 (proj2 (messages_built_per_entry _ _ _ _ Hdb eq_refl))).
Defined.

(** X16.  Failures at the root.  An exception of [json.loads] passes
    through [load_string] unchanged, except a [KeyError], which becomes
    the [ValueError] about the root; and a document whose root is not an
    object (an array, a string, a number, a boolean, null) raises a type
    error, not that [ValueError]. *)
Theorem root_failures (strict : bool) :
  (forall e,
      load_string (Raise e) strict
      = Raise (match e with
               | KeyError => ValueError (Some expected_root)
               | _ => e
               end))
  /\ (forall odin, (forall d, odin <> VDict d) ->
                   load_string (Ok odin) strict = Raise TypeError).
Proof.
  split.
  - intros e. now destruct e.
  - intros odin Hn. destruct odin; try reflexivity. now destruct (Hn d).
Qed.

(** X17.  A [messages] entry that is not an object.  When the root has
    both keys and [messages] holds something else than an object, nothing
    is loaded: the test for the key [name] or the subscript raises a type
    error, or else the call of [items] raises an attribute error. *)
Theorem messages_not_an_object (root : list (string * value)) (v b : value)
  (strict : bool) :
  lookup "messages" root = Some v ->
  lookup "busMetadata" root = Some b ->
  (forall d, v <> VDict d) ->
  load_string (Ok (VDict root)) strict = Raise TypeError
  \/ load_string (Ok (VDict root)) strict = Raise AttributeError.
Proof.
  intros Hm Hb Hn. unfold load_string. cbn [bind getitem]. rewrite Hm, Hb.
  cbn [bind except_KeyError fst].
  destruct v; try (now left); try (now destruct (Hn d)); cbn [contains bind].
  - destruct (substringb "name" s); [now left | now right].
  - destruct (existsb _ l); [now left | now right].
Qed.

Lemma messages_not_an_object_witness :
  (load_string (Ok (VDict [("messages", VList []); ("busMetadata", VDict [])])) true
   = Raise TypeError
   \/ load_string (Ok (VDict [("messages", VList []); ("busMetadata", VDict [])])) true
      = Raise AttributeError)
  /\ load_string (Ok (VDict [("messages", VList []); ("busMetadata", VDict [])])) true
     = Raise AttributeError.
Proof.
  split; [|reflexivity].
  apply (messages_not_an_object
           [("messages", VList []); ("busMetadata", VDict [])] (VList []) (VDict []) true
           eq_refl eq_refl).
  discriminate.
Defined.

(** *** The nodes *)

Lemma foldM_invariant {A B : Type} (P : B -> Prop) (f : B -> A -> result B) :
  (forall acc x acc', P acc -> f acc x = Ok acc' -> P acc') ->
  forall l acc acc', P acc -> foldM f acc l = Ok acc' -> P acc'.
Proof.
  intros Hf. induction l as [|x l IH]; simpl; intros acc acc' Hacc H.
  - now injection H as <-.
  - bind_split H as a1 Ha1. eauto.
Qed.

Lemma set_add_hashable (s s' : list value) (x : value) :
  Forall (fun y => hashable y = true) s -> set_add s x = Ok s' ->
  Forall (fun y => hashable y = true) s'.
Proof.
  intros Hs H. apply set_add_Ok in H. destruct H as [Hx ->].
  destruct (set_mem x s); [assumption|].
  apply Forall_app. split; [assumption|]. now constructor.
Qed.

Lemma set_update_hashable (s s' : list value) (v : value) :
  Forall (fun y => hashable y = true) s -> set_update s v = Ok s' ->
  Forall (fun y => hashable y = true) s'.
Proof.
  unfold set_update. intros Hs H. bind_split H as l Hl.
  eapply (foldM_invariant _ set_add); [|exact Hs|exact H].
  intros acc x acc'. apply set_add_hashable.
Qed.

Lemma load_messages_hashable (bus : value) (strict : bool)
  (kvs : list (string * value)) (nodes0 nodes : list value)
  (msgs0 msgs : list Message.t) :
  Forall (fun y => hashable y = true) nodes0 ->
  load_messages bus strict kvs nodes0 msgs0 = Ok (nodes, msgs) ->
  Forall (fun y => hashable y = true) nodes.
Proof.
  unfold load_messages. intros H0 H.
  change (Forall (fun y => hashable y = true) (fst (nodes, msgs))).
  eapply (foldM_invariant
            (fun st : list value * list Message.t =>
               Forall (fun y => hashable y = true) (fst st)))
    with (acc := (nodes0, msgs0));
    [|exact H0|exact H].
  intros [n ms] kv [n' ms'] Hn Hstep. simpl in *.
  bind_split Hstep as m Hm. bind_split Hstep as n1 Hn1. bind_split Hstep as n2 Hn2.
  injection Hstep as <- <-.
  eapply (foldM_invariant (fun acc => Forall (fun y => hashable y = true) acc))
    with (acc := n1);
    [|eapply set_update_hashable; eauto|exact Hn2].
  intros acc sig acc'. apply set_update_hashable.
Qed.

(** The nodes of a loaded database are the final node set, one node per
    name, without a comment. *)
Lemma load_string_nodes (loaded : result value) (strict : bool)
  (db : InternalDatabase.t) :
  load_string loaded strict = Ok db ->
  exists bus entries names,
    load_messages bus strict entries [] [] = Ok (names, InternalDatabase.messages db)
    /\ InternalDatabase.nodes db = map (fun node => Node.mk node None) names.
Proof.
  unfold load_string. intros H.
  bind_split H as root Hroot. bind_split H as bus Hbus.
  bind_split H as kvs Hkvs. bind_split H as st Hst.
  destruct st as [nodes msgs]. injection H as <-. simpl. eauto.
Qed.

Lemma distinct_NoDup (s : list value) :
  Forall (fun y => hashable y = true) s -> distinct s -> NoDup s.
Proof.
  induction 1 as [|x s Hx _ IH]; simpl; intros Hd; [constructor|].
  destruct Hd as [Hm Hd]. constructor; [|auto].
  intros Hin.
  assert (Ht : set_mem x s = true).
  { apply set_mem_true. exists x. split; [assumption|]. now apply key_eqb_refl. }
  congruence.
Qed.

(** X18.  The nodes of a loaded database: every node has a hashable name
    and no comment, no two nodes have the same name, and there are at most
    as many nodes as there are senders and receivers in the document: a
    document without senders and receivers has no node. *)
Theorem nodes_are_plain (loaded : result value) (strict : bool)
  (db : InternalDatabase.t) :
  load_string loaded strict = Ok db ->
  Forall (fun n => Node.comment n = None /\ hashable (Node.name n) = true)
    (InternalDatabase.nodes db)
  /\ NoDup (map Node.name (InternalDatabase.nodes db))
  /\ (Datatypes.length (InternalDatabase.nodes db)
      <= Datatypes.length (all_names (InternalDatabase.messages db)))%nat.
Proof.
  intros H.
  destruct (load_string_nodes _ _ _ H) as (bus & entries & names & Hl & Hn).
  pose proof (load_messages_hashable _ _ _ _ _ _ _ (Forall_nil _) Hl) as Hh.
  destruct (load_string_Ok _ _ _ H)
    as (_ & _ & _ & _ & _ & _ & _ & _ & _ & _ & _ & (_ & Hin & Hd)).
  assert (Hnames : map Node.name (InternalDatabase.nodes db) = names).
  { rewrite Hn, map_map. simpl. apply map_id. }
  rewrite Hnames in *.
  assert (Hnd : NoDup names) by (apply distinct_NoDup; [assumption | now apply Hd]).
  split; [|split].
  - rewrite Hn. apply Forall_forall. intros n Hnin.
    apply in_map_iff in Hnin. destruct Hnin as (x & <- & Hx). simpl.
    split; [reflexivity|]. rewrite Forall_forall in Hh. auto.
  - exact Hnd.
  - rewrite Hn, length_map. apply NoDup_incl_length; [assumption|].
    intros z Hz. destruct (Hin z Hz) as [[]|Hu]. exact Hu.
Qed.

Lemma nodes_are_plain_witness :
  exists db,
    load_string
      (Ok (document
             [("M1", VDict [("senders", VList [VStr "A"; VStr "B"; VStr "A"])]);
              ("M2", VDict [("senders", VList [VStr "B"])])])) true = Ok db
    /\ Datatypes.length (InternalDatabase.nodes db) = 2%nat
    /\ NoDup (map Node.name (InternalDatabase.nodes db))
    /\ (Datatypes.length (InternalDatabase.nodes db) <= 4)%nat.
Proof.
  match goal with
  | |- exists db, ?load = Ok db /\ _ =>
      let r := eval vm_compute in load in
      match r with
      | Ok ?v => assert (Hdb : load = Ok v) by (vm_compute; reflexivity); exists v
      end
  end.
  destruct (nodes_are_plain _ _ _ Hdb) as (_ & Hnd & Hlen).
  split; [exact Hdb|]. split; [reflexivity|]. split; [exact Hnd | exact Hlen].
Defined.

(** *** The message builder: fields and the multiplexer *)

(** How [_load_message] computed the plain fields of the message. *)
Lemma _load_message_fields (message : value) (name : string) (bus : value)
  (strict : bool) (m : Message.t) :
  _load_message message name bus strict = Ok m ->
  (v <- _get_value message "message_id" (VInt 0) ;; int v)
  = Ok (Message.frame_id m)
  /\ (v <- _get_value message "cycle_time" VNone ;; int_or_None v)
     = Ok (Message.cycle_time m)
  /\ _get_value message "senders" (VList []) = Ok (Message.senders m)
  /\ _get_value message "send_type" VNone = Ok (Message.send_type m).
Proof.
  unfold _load_message. intros H. binds_inv H. injection H as <-. simpl.
  repeat split; try assumption.
  match goal with
  | E : _get_value _ "cycle_time" _ = Ok _ |- _ => rewrite E; simpl; assumption
  end.
Qed.

(** X19.  The fields of the message builder.  In the message built from
    an object record: the frame id is the int [message_id], or 0 without
    one; the cycle time is the int [cycle_time], or absent without one or
    with a null one; the senders and the send type are whatever the record
    holds, or no sender and no send type; and without a [signals] field
    the message has no signal. *)
Theorem message_fields_and_defaults (d : list (string * value)) (name : string)
  (bus : value) (strict : bool) (m : Message.t) :
  _load_message (VDict d) name bus strict = Ok m ->
  (lookup "message_id" d = None -> Message.frame_id m = 0)
  /\ (forall n, lookup "message_id" d = Some (VInt n) -> Message.frame_id m = n)
  /\ (lookup "cycle_time" d = None \/ lookup "cycle_time" d = Some VNone ->
      Message.cycle_time m = None)
  /\ (forall n, lookup "cycle_time" d = Some (VInt n) ->
                Message.cycle_time m = Some n)
  /\ Message.senders m
     = match lookup "senders" d with Some v => v | None => VList [] end
  /\ Message.send_type m
     = match lookup "send_type" d with Some v => v | None => VNone end
  /\ (lookup "signals" d = None -> Message.signals m = []).
Proof.
  intros H.
  destruct (_load_message_fields _ _ _ _ _ H) as (Hid & Hct & Hse & Hst).
  destruct (_load_message_Ok _ _ _ _ _ H)
    as (_ & sj & parsed & _ & Hsj & Hparsed & Hsig & _).
  rewrite _get_value_dict in Hid, Hct, Hse, Hst, Hsj.
  cbn [bind] in Hid, Hct.
  injection Hse as Hse. injection Hst as Hst. injection Hsj as Hsj.
  conjs.
  - intros Hl. rewrite Hl in Hid. simpl in Hid. congruence.
  - intros n Hl. rewrite Hl in Hid. simpl in Hid. congruence.
  - intros [Hl|Hl]; rewrite Hl in Hct; rewrite int_or_None_None in Hct; congruence.
  - intros n Hl. rewrite Hl in Hct. rewrite int_or_None_int in Hct. congruence.
  - congruence.
  - congruence.
  - intros Hl. rewrite Hl in Hsj. subst sj. injection Hparsed as <-.
    rewrite Hsig. reflexivity.
Qed.

Lemma message_fields_and_defaults_witness :
  exists m,
    _load_message
      (VDict [("message_id", VInt 291); ("cycle_time", VNone);
              ("senders", VList [VStr "ECU"])]) "M" VNone false = Ok m
    /\ Message.frame_id m = 291
    /\ Message.cycle_time m = None
    /\ Message.senders m = VList [VStr "ECU"]
    /\ Message.send_type m = VNone
    /\ Message.signals m = [].
Proof.
  match goal with
  | |- exists m, ?load = Ok m /\ _ =>
      let r := eval vm_compute in load in
      match r with
      | Ok ?v => assert (Hm : load = Ok v) by (vm_compute; reflexivity); exists v
      end
  end.
  destruct (message_fields_and_defaults _ _ _ _ _ Hm)
    as (_ & Hid & Hct & _ & Hse & Hst & Hsig).
  split; [exact Hm|]. split; [exact (Hid _ eq_refl)|].
  split; [exact (Hct (or_intror eq_refl))|].
  split; [exact Hse|]. split; [exact Hst | exact (Hsig eq_refl)].
Defined.

Lemma find_multiplexer_Some (l : list Signal.t) (mx : string) :
  find_multiplexer l = Some mx ->
  exists mux, In mux l /\ Signal.is_multiplexer mux = true /\ Signal.name mux = mx.
Proof.
  induction l as [|s l IH] using rev_ind; [discriminate|].
  rewrite find_multiplexer_app. unfold find_multiplexer at 1. simpl.
  destruct (Signal.is_multiplexer s) eqn:Hs.
  - intros H. injection H as <-. exists s. split; [|auto].
    apply in_or_app. simpl. auto.
  - intros H. destruct (IH H) as (mux & Hin & Hm & Hn).
    exists mux. split; [|auto]. apply in_or_app. auto.
Qed.

(** X20.  The assignment loop is sound.  In a built message a signal has
    a [multiplexer_signal] only if it has multiplexer ids, and the name it
    holds is then the non-empty name of a signal of the same message that is
    marked as a multiplexer; a signal without multiplexer ids never gets
    one. *)
Theorem multiplexer_signal_sound
  (message : value) (name : string) (bus : value) (strict : bool)
  (m : Message.t) (s : Signal.t) (mx : string) :
  _load_message message name bus strict = Ok m ->
  In s (Message.signals m) ->
  Signal.multiplexer_signal s = Some mx ->
  mx <> ""
  /\ (exists id, Signal.multiplexer_ids s = Some [id])
  /\ exists mux, In mux (Message.signals m)
                 /\ Signal.is_multiplexer mux = true
                 /\ Signal.name mux = mx.
Proof.
  intros H Hin Hmx.
  destruct (_load_message_Ok _ _ _ _ _ H)
    as (_ & sj & parsed & _ & _ & Hparsed & Hsig & _).
  destruct (_parse_signals_Ok _ _ Hparsed) as (entries & -> & Hall).
  assert (Hnone : forall s0, In s0 parsed ->
                             Signal.multiplexer_signal s0 = None
                             /\ (has_multiplexer_ids s0 = true ->
                                 exists id, Signal.multiplexer_ids s0 = Some [id])).
  { clear - Hall. induction Hall as [|kv s1 ? ? Hs _ IH]; simpl; [tauto|].
    intros s0 [<-|Hs0]; [|auto].
    destruct (_load_signal_mux _ _ _ Hs) as (mux_id & _ & _ & _ & Hids & _ & Hms).
    split; [assumption|]. unfold has_multiplexer_ids.
    destruct (is_None mux_id).
    - destruct Hids as [-> _]. discriminate.
    - destruct Hids as (id & _ & -> & _). eauto. }
  pose proof (find_multiplexer_assign (find_multiplexer parsed) parsed) as Hfind.
  rewrite <- Hsig in Hfind.
  rewrite Hsig in Hin. unfold assign_multiplexer in Hin.
  destruct (find_multiplexer parsed) as [mx'|] eqn:Hf;
    [|destruct (Hnone _ Hin); congruence].
  destruct (String.eqb_spec mx' ""); simpl in Hin;
    [destruct (Hnone _ Hin); congruence|].
  apply in_map_iff in Hin. destruct Hin as (s0 & Hs0 & Hin0).
  destruct (Hnone _ Hin0) as [Hn0 Hids0].
  destruct (has_multiplexer_ids s0) eqn:Hhas; [|congruence].
  subst s. simpl in Hmx. injection Hmx as <-.
  split; [assumption|]. split; [simpl; auto|].
  now apply find_multiplexer_Some.
Qed.

Lemma multiplexer_signal_sound_witness :
  exists m mux s,
    _load_message
      (VDict [("signals",
               VDict [("M", VDict [("start_position", VInt 0); ("is_muxer", VBool true)]);
                      ("x", VDict [("start_position", VInt 8); ("mux_id", VInt 1)])])])
      "msg" VNone true = Ok m
    /\ Message.signals m = [mux; s]
    /\ Signal.multiplexer_signal s = Some "M"
    /\ exists mux', In mux' (Message.signals m)
                    /\ Signal.is_multiplexer mux' = true
                    /\ Signal.name mux' = "M".
Proof.
  match goal with
  | |- exists m mux s, ?load = Ok m /\ _ =>
      let r := eval vm_compute in load in
      match r with
      | Ok ?v => assert (Hm : load = Ok v) by (vm_compute; reflexivity); exists v
      end
  end.
  do 2 eexists. split; [exact Hm|]. split; [reflexivity|]. split; [reflexivity|].
  eapply (multiplexer_signal_sound _ _ _ _ _ _ "M" Hm);
    [right; left; reflexivity | reflexivity].
Defined.

Lemma signal_null_fields_witness :
  _load_signal (VDict [("width", VNone); ("start_position", VInt 0)]) "sig"
  = Raise TypeError
  /\ exists s,
       _load_signal
         (VDict [("start_position", VInt 0); ("minimum", VNone); ("mux_id", VNone)])
         "sig" = Ok s
       /\ Signal.minimum s = None
       /\ Signal.is_multiplexed s = false.
Proof.
  split.
  - apply (proj1 (signal_null_fields
                    [("width", VNone); ("start_position", VInt 0)] "sig")).
    reflexivity.
  - eexists. split; [reflexivity|].
    destruct (proj2 (proj2 (signal_null_fields
                              [("start_position", VInt 0); ("minimum", VNone);
                               ("mux_id", VNone)] "sig")) _ eq_refl)
      as (Hmin & _ & Hmux & _).
    split; [exact (Hmin eq_refl) | exact (proj2 (Hmux eq_refl))].
Defined.

(* ===================================================================== *)
(** ** A signal record without a start position *)
(* ===================================================================== *)

Lemma assign_multiplexer_start (mx : option string) (l : list Signal.t)
  (s0 : Signal.t) :
  In s0 l ->
  exists s, In s (assign_multiplexer mx l) /\ Signal.start s = Signal.start s0.
Proof.
  intros Hin. unfold assign_multiplexer.
  destruct mx as [m|]; [|eauto].
  destruct (negb (m =? "")%string); [|eauto].
  eexists. split; [apply in_map, Hin|].
  now destruct (has_multiplexer_ids s0).
Qed.

(** A message whose length is inferred is not built when one of its
    signals has no start bit. *)
Lemma auto_length_needs_start_bits (message : value) (name : string)
  (bus : value) (strict : bool) (m : Message.t) (raw : value) :
  _load_message message name bus strict = Ok m ->
  _get_value message "length_bytes" (VStr "auto") = Ok raw ->
  eq_str raw "auto" = true ->
  forall s, In s (Message.signals m) -> Signal.start s <> None.
Proof.
  intros H Hraw Hauto s Hin.
  assert (Hne : Message.signals m <> [])
    by (destruct (Message.signals m); [destruct Hin | discriminate]).
  destruct (auto_length_Ok _ _ _ _ _ _ H Hraw Hauto Hne)
    as (z & b & _ & _ & Hall & _).
  destruct (Hall s Hin) as (o & -> & _). discriminate.
Qed.

(** C8, in the form the loader satisfies.  For a signal record without
    [start_position]: the normalizer raises a type error on the absent
    offset for a big-endian signal and returns the absent offset for a
    little-endian one.  So when the record says [BIG], no signal is built
    and every document that has the record among the signals of one of its
    messages fails to load; a signal that is built is little-endian with an
    absent start bit; and whatever the byte order, a message with the
    record among its signals is not built when its length is inferred, and
    every document with such a message fails to load. *)
Theorem missing_start_position (d : list (string * value)) (name : string) :
  lookup "start_position" d = None ->
  _start_bit None "big_endian" = Raise TypeError
  /\ _start_bit None "little_endian" = Ok None
  /\ (forall s, _load_signal (VDict d) name = Ok s ->
                Signal.byte_order s = "little_endian" /\ Signal.start s = None)
  /\ (lookup "endianness" d = Some (VStr "BIG") ->
      is_ok (_load_signal (VDict d) name) = false
      /\ forall odin strict entries mname message sentries,
           getitem odin "messages" = Ok (VDict entries) ->
           In (mname, message) entries ->
           _get_value message "signals" (VDict []) = Ok (VDict sentries) ->
           In (name, VDict d) sentries ->
           is_ok (load_string (Ok odin) strict) = false)
  /\ (forall message sentries raw,
         _get_value message "signals" (VDict []) = Ok (VDict sentries) ->
         In (name, VDict d) sentries ->
         _get_value message "length_bytes" (VStr "auto") = Ok raw ->
         eq_str raw "auto" = true ->
         (forall mname bus strict,
             is_ok (_load_message message mname bus strict) = false)
         /\ forall odin strict entries mname,
              getitem odin "messages" = Ok (VDict entries) ->
              In (mname, message) entries ->
              is_ok (load_string (Ok odin) strict) = false).
Proof.
  intros Hd.
  assert (Hs : forall s, _load_signal (VDict d) name = Ok s ->
                         Signal.byte_order s
                         = (if eq_str (match lookup "endianness" d with
                                       | Some v => v
                                       | None => VStr "LITTLE"
                                       end) "BIG"
                            then "big_endian" else "little_endian")
                         /\ Signal.byte_order s = "little_endian"
                         /\ Signal.start s = None).
  { intros s H.
    destruct (_load_signal_start _ _ _ H)
      as (position & offset & endianness & Hp & Ho & He & Hb & Hstart).
    rewrite _get_value_dict, Hd in Hp. injection Hp as <-.
    injection Ho as <-.
    rewrite _get_value_dict in He. injection He as <-.
    split; [assumption|]. rewrite Hb in *.
    destruct (eq_str _ "BIG"); [discriminate|].
    injection Hstart as <-. auto. }
  assert (Hbig : lookup "endianness" d = Some (VStr "BIG") ->
                 is_ok (_load_signal (VDict d) name) = false).
  { intros He. destruct (_load_signal (VDict d) name) as [s|e] eqn:H; [|reflexivity].
    destruct (Hs s eq_refl) as (Hb & Hl & _). rewrite He in Hb. simpl in Hb.
    congruence. }
  assert (Hmsg : forall message sentries raw,
             _get_value message "signals" (VDict []) = Ok (VDict sentries) ->
             In (name, VDict d) sentries ->
             _get_value message "length_bytes" (VStr "auto") = Ok raw ->
             eq_str raw "auto" = true ->
             forall mname bus strict,
               is_ok (_load_message message mname bus strict) = false).
  { intros message sentries raw Hsig Hsin Hraw Hauto mname bus strict.
    destruct (_load_message message mname bus strict) as [m|e] eqn:H; [|reflexivity].
    exfalso.
    destruct (_load_message_Ok _ _ _ _ _ H)
      as (_ & sj & parsed & _ & Hsj & Hparsed & Hsigs & _).
    rewrite Hsig in Hsj. injection Hsj as <-.
    destruct (_parse_signals_Ok _ _ Hparsed) as (sentries' & Heq & Hall).
    injection Heq as <-.
    destruct (Forall2_In_l _ _ _ _ Hall Hsin) as (s0 & Hin0 & Hs0). simpl in Hs0.
    destruct (Hs s0 Hs0) as (_ & _ & Hstart0).
    destruct (assign_multiplexer_start (find_multiplexer parsed) _ _ Hin0)
      as (s & Hin & Hstart).
    rewrite <- Hsigs in Hin.
    apply (auto_length_needs_start_bits _ _ _ _ _ _ H Hraw Hauto s Hin).
    congruence. }
  split; [reflexivity|]. split; [reflexivity|]. split; [|split].
  - intros s H. now destruct (Hs s H) as (_ & ? & ?).
  - intros He. split; [now apply Hbig|].
    intros odin strict entries mname message sentries Hm Hin Hsig Hsin.
    destruct (load_string (Ok odin) strict) as [db|e] eqn:H; [|reflexivity].
    destruct (load_string_signals _ _ _ _ _ _ _ _ _ H Hm Hin Hsig Hsin)
      as (s & Hload).
    specialize (Hbig He). now rewrite Hload in Hbig.
  - intros message sentries raw Hsig Hsin Hraw Hauto.
    split; [now apply (Hmsg message sentries raw)|].
    intros odin strict entries mname Hm Hin.
    destruct (load_string (Ok odin) strict) as [db|e] eqn:H; [|reflexivity].
    destruct (load_string_Ok _ _ _ H)
      as (odin' & entries' & _ & bus & Ho & Hm' & _ & _ & _ & _ & Hall & _).
    injection Ho as <-. rewrite Hm in Hm'. injection Hm' as <-.
    destruct (Forall2_In_l _ _ _ _ Hall Hin) as (m & _ & Hload). simpl in Hload.
    pose proof (Hmsg message sentries raw Hsig Hsin Hraw Hauto mname bus strict) as Hno.
    now rewrite Hload in Hno.
Qed.

Lemma missing_start_position_witness :
  is_ok (_load_signal (VDict [("width", VInt 8); ("endianness", VStr "BIG")]) "s")
  = false
  /\ is_ok (load_string
              (Ok (document
                     [("M1",
                       VDict [("length_bytes", VInt 1);
                              ("signals",
                               VDict [("s", VDict [("width", VInt 8);
                                                   ("endianness", VStr "BIG")])])])]))
              true) = false
  /\ (exists s, _load_signal (VDict [("width", VInt 8)]) "s" = Ok s)
  /\ is_ok (_load_message
              (VDict [("signals", VDict [("s", VDict [("width", VInt 8)])])])
              "M1" VNone true) = false
  /\ is_ok (load_string
              (Ok (document
                     [("M1",
                       VDict [("signals", VDict [("s", VDict [("width", VInt 8)])])])]))
              true) = false.
Proof.
  destruct (missing_start_position
              [("width", VInt 8); ("endianness", VStr "BIG")] "s" eq_refl)
    as (_ & _ & _ & Hbig & _).
  destruct (Hbig eq_refl) as [Hs Hdoc].
  destruct (missing_start_position [("width", VInt 8)] "s" eq_refl)
    as (_ & _ & _ & _ & Hauto).
  destruct (Hauto (VDict [("signals", VDict [("s", VDict [("width", VInt 8)])])])
              [("s", VDict [("width", VInt 8)])] (VStr "auto")
              eq_refl (or_introl eq_refl) eq_refl eq_refl) as [Hmsg Hload].
  split; [exact Hs|]. split.
  - eapply Hdoc; [reflexivity | left; reflexivity | reflexivity | left; reflexivity].
  - split; [eexists; reflexivity|]. split; [apply Hmsg|].
    eapply Hload; [reflexivity | left; reflexivity].
Defined.

(** For a little-endian signal record without [start_position] the
    normalizer does not fail: it returns the absent offset, and the signal
    is built with an absent start bit. *)
Lemma missing_start_position_little_endian :
  _start_bit None "little_endian" = Ok None
  /\ exists s,
       _load_signal (VDict [("width", VInt 8)]) "s" = Ok s
       /\ Signal.byte_order s = "little_endian"
       /\ Signal.start s = None.
Proof.
  split; [reflexivity|]. eexists. repeat split.
Qed.
